(** * infa3.helper: command-line helpers for the Informatica tools

    A shallow embedding of [src/infa3/helper.py] and the properties its
    specification states about it.

    Python values are modelled as follows.
    - [str] is [string]: a sequence of characters with codes 0..255.
    - [bytes] is [list Byte.byte].
    - a [dict] is the list of its items in insertion order, which is the
      order [dict.items()] iterates in; the keys of a dict are distinct.
    - an exception is a value of [exn]; a call that may raise returns a
      [result].
    - [print] appends to an explicit standard-output text, the file
      written by [open(..., 'w')] lives in an explicit file store. *)

From Stdlib Require Import Ascii String List ZArith Lia Bool.
From stdpp Require Import base list strings gmap.

(** ** Exceptions *)

Inductive exn : Type :=
  | Exception (msg : string)      (* raise Exception(msg) *)
  | ValueError (msg : string)     (* raised by str.split and str.format *)
  | KeyError (name : string)      (* raised by str.format *)
  | IndexError (msg : string)     (* raised by str.format *)
  | OSError (path : string).      (* raised by open *)

Inductive result (A : Type) : Type :=
  | Ok (a : A)
  | Raise (e : exn).
Arguments Ok {A} a.
Arguments Raise {A} e.

(** Sequencing: an exception raised by the first call ends the rest. *)
#[global] Instance result_ret : MRet result := λ A a, Ok a.
#[global] Instance result_bind : MBind result := λ A B k r,
  match r with
  | Ok a => k a
  | Raise e => Raise e
  end.

(** ** The [str] operations the module uses *)

Module Str.

Definition nl : string := String "010" "".      (* '\n' *)
Definition dq : string := String "034" "".      (* the double quote *)

(** [s.startswith(p)] *)
Fixpoint startswith (p s : string) : bool :=
  match p, s with
  | EmptyString, _ => true
  | String a p', String b s' => if Ascii.eqb a b then startswith p' s' else false
  | String _ _, EmptyString => false
  end.

(** [sub in s] for two strings: [sub] occurs in [s] at some position. *)
Fixpoint contains (sub s : string) : bool :=
  startswith sub s ||
  match s with
  | EmptyString => false
  | String _ s' => contains sub s'
  end.

(** The propositional reading of [sub in s]. *)
Definition occurs_in (sub s : string) : Prop :=
  ∃ before after, s = before +:+ sub +:+ after.

(** [str.isspace] on one character: the code points below 256 that
    Python counts as whitespace. *)
Definition isspace (c : ascii) : bool :=
  let n := nat_of_ascii c in
  ((9 <=? n) && (n <=? 13)) || ((28 <=? n) && (n <=? 32))
  || (n =? 133) || (n =? 160).

Fixpoint lstrip_by (drop : ascii → bool) (s : string) : string :=
  match s with
  | EmptyString => EmptyString
  | String c s' => if drop c then lstrip_by drop s' else s
  end.

Fixpoint rstrip_by (drop : ascii → bool) (s : string) : string :=
  match s with
  | EmptyString => EmptyString
  | String c s' =>
      match rstrip_by drop s' with
      | EmptyString => if drop c then EmptyString else String c EmptyString
      | r => String c r
      end
  end.

(** [s.strip()] *)
Definition strip (s : string) : string :=
  rstrip_by isspace (lstrip_by isspace s).

Fixpoint mem_char (c : ascii) (chars : string) : bool :=
  match chars with
  | EmptyString => false
  | String d chars' => Ascii.eqb c d || mem_char c chars'
  end.

(** [s.strip(chars)]: removes leading and trailing characters that
    belong to the set [chars]. *)
Definition strip_chars (chars s : string) : string :=
  rstrip_by (λ c, mem_char c chars) (lstrip_by (λ c, mem_char c chars) s).

(** [sep.join(l)] *)
Fixpoint join (sep : string) (l : list string) : string :=
  match l with
  | [] => ""
  | [s] => s
  | s :: l' => s +:+ sep +:+ join sep l'
  end.

(** The scan of [s.split(sep)] for a non-empty [sep]: occurrences are
    found from the left and do not overlap.  [skip] counts the
    characters of an occurrence still to be passed over, [cur] is the
    field read so far. *)
Fixpoint split_scan (sep s : string) (skip : nat) (cur : string) : list string :=
  match s with
  | EmptyString => [cur]
  | String c s' =>
      match skip with
      | S k => split_scan sep s' k cur
      | O =>
          if startswith sep s
          then cur :: split_scan sep s' (String.length sep - 1) ""
          else split_scan sep s' 0 (cur +:+ String c "")
      end
  end.

(** [s.split(sep)]; an empty separator raises [ValueError]. *)
Definition split (s sep : string) : result (list string) :=
  match sep with
  | EmptyString => Raise (ValueError "empty separator")
  | _ => Ok (split_scan sep s 0 "")
  end.

(** [s.count(sub)] for a non-empty [sub]: the occurrences that
    [s.split(sub)] cuts at. *)
Definition count (sub s : string) : nat :=
  length (split_scan sub s 0 "") - 1.

(** [template.format(name=value, ...)] for string arguments.  The scan keeps
    the state of the replacement-field parser: plain text, after an
    opening brace, inside a field name, after a closing brace.  Doubled
    braces stand for one brace.  Fields with a conversion, a format
    specification or an attribute or index part do not occur in this
    module and are rejected here. *)
Inductive format_state : Type :=
  | Text
  | Opened
  | Field (name : string)
  | Closed.

Fixpoint lookup_kw (name : string) (kwargs : list (string * string)) : result string :=
  match kwargs with
  | [] => Raise (KeyError name)
  | (k, v) :: kwargs' => if String.eqb k name then Ok v else lookup_kw name kwargs'
  end.

Definition is_digit (c : ascii) : bool :=
  let n := nat_of_ascii c in (48 <=? n) && (n <=? 57).

Fixpoint all_digits (s : string) : bool :=
  match s with
  | EmptyString => true
  | String c s' => is_digit c && all_digits s'
  end.

(** The decimal numeral [s] as Python prints the number: without leading
    zeros. *)
Fixpoint drop_zeros (s : string) : string :=
  match s with
  | String c (String _ _ as s') => if Ascii.eqb c "0" then drop_zeros s' else s
  | _ => s
  end.

(** The value of the field [name]: a number refers to a positional
    argument, and there is none; a name refers to a keyword argument. *)
Definition lookup_field (name : string) (kwargs : list (string * string))
    : result string :=
  if all_digits name then
    Raise (IndexError ("Replacement index " +:+ drop_zeros name
                       +:+ " out of range for positional args tuple"))
  else lookup_kw name kwargs.

Definition field_special (c : ascii) : bool :=
  mem_char c "{!:.[".

Fixpoint format_scan (kwargs : list (string * string)) (t : string)
    (st : format_state) : result string :=
  match t with
  | EmptyString =>
      match st with
      | Text => Ok ""
      | Opened => Raise (ValueError "Single '{' encountered in format string")
      | Field _ => Raise (ValueError "expected '}' before end of string")
      | Closed => Raise (ValueError "Single '}' encountered in format string")
      end
  | String c t' =>
      match st with
      | Text =>
          if Ascii.eqb c "{" then format_scan kwargs t' Opened
          else if Ascii.eqb c "}" then format_scan kwargs t' Closed
          else r ← format_scan kwargs t' Text; Ok (String c r)
      | Opened =>
          if Ascii.eqb c "{" then r ← format_scan kwargs t' Text; Ok (String "{" r)
          else if Ascii.eqb c "}" then
            Raise (IndexError "Replacement index 0 out of range for positional args tuple")
          else if field_special c then Raise (ValueError "unsupported replacement field")
          else format_scan kwargs t' (Field (String c ""))
      | Field name =>
          if Ascii.eqb c "}" then
            v ← lookup_field name kwargs; r ← format_scan kwargs t' Text; Ok (v +:+ r)
          else if field_special c then Raise (ValueError "unsupported replacement field")
          else format_scan kwargs t' (Field (name +:+ String c ""))
      | Closed =>
          if Ascii.eqb c "}" then r ← format_scan kwargs t' Text; Ok (String "}" r)
          else Raise (ValueError "Single '}' encountered in format string")
      end
  end.

Definition format (template : string) (kwargs : list (string * string)) : result string :=
  format_scan kwargs template Text.

End Str.

(** ** Python values that occur in a configuration *)

Inductive pyval : Type :=
  | PNone
  | PBool (b : bool)
  | PInt (z : Z)
  | PStr (s : string).

(** [value == True]: [bool] is a subclass of [int], so [1 == True]. *)
Definition eq_True (value : pyval) : bool :=
  match value with
  | PBool b => b
  | PInt z => (z =? 1)%Z
  | PNone | PStr _ => false
  end.

(** A [dict] with string keys, as the list of its items in insertion order. *)
Abbreviation dict := (list (string * pyval)).

Definition keys (params : dict) : list string := params.*1.

(** [key in opts] for a list of strings. *)
Definition in_list (key : string) (opts : list string) : bool :=
  bool_decide (key ∈ opts).

(** ** [cmd_prepare] *)

(** The [for] loop of [cmd_prepare]; [command] is the list built so far. *)
Fixpoint cmd_prepare_loop (items : dict) (opts_args opts_flags : list string)
    (command : list pyval) : result (list pyval) :=
  match items with
  | [] => Ok command
  | (key, value) :: rest =>
      if in_list key opts_args then
        cmd_prepare_loop rest opts_args opts_flags
          (command ++ [PStr ("-" +:+ key); value])
      else if in_list key opts_flags && eq_True value then
        cmd_prepare_loop rest opts_args opts_flags
          (command ++ [PStr ("-" +:+ key)])
      else if negb (in_list key (opts_args ++ opts_flags)) then
        Raise (Exception ("unsupported option: " +:+ key))
      else
        cmd_prepare_loop rest opts_args opts_flags command
  end.

Definition cmd_prepare (params : dict) (opts_args opts_flags : list string)
    : result (list pyval) :=
  cmd_prepare_loop params opts_args opts_flags [].

(** ** [cmd_execute] *)

Module Bytes.

Abbreviation bytes := (list Byte.byte).

(** A bytes literal with the characters of [s]. *)
Definition of_string (s : string) : bytes := String.list_byte_of_string s.

Definition hexdigit (d : N) : ascii :=
  if (d <? 10)%N then ascii_of_N (48 + d) else ascii_of_N (87 + d).

(** How [repr] writes one byte inside the quotes [quote]. *)
Definition repr_byte (quote : ascii) (b : Byte.byte) : string :=
  let c := ascii_of_byte b in
  let n := Byte.to_N b in
  if Ascii.eqb c quote || Ascii.eqb c "\" then String "\" (String c "")
  else if Ascii.eqb c "009" then "\t"
  else if Ascii.eqb c "010" then "\n"
  else if Ascii.eqb c "013" then "\r"
  else if (n <? 32)%N || (127 <=? n)%N then
    String "\" (String "x" (String (hexdigit (n / 16)) (String (hexdigit (n mod 16)) "")))
  else String c "".

Definition has_byte (c : ascii) (bs : bytes) : bool :=
  existsb (λ b, Ascii.eqb (ascii_of_byte b) c) bs.

(** [str(bs)] for a bytes object, which is [repr(bs)]: the letter b, a
    quote, the escaped bytes, the quote.  The quote is the apostrophe,
    unless the bytes hold an apostrophe and no double quote. *)
Definition str (bs : bytes) : string :=
  let quote : ascii :=
    if has_byte "'"%char bs && negb (has_byte "034"%char bs)
    then "034"%char else "'"%char in
  "b" +:+ String quote (String.concat "" (map (repr_byte quote) bs))
      +:+ String quote "".

End Bytes.

(** Carriage return and line feed. *)
Definition crlf : string := String "013" (String "010" "").

(** Printable ASCII other than the backslash and the apostrophe. *)
Definition plain_char (c : ascii) : bool :=
  let n := nat_of_ascii c in
  (32 <=? n) && (n <=? 126) && negb (Ascii.eqb c "\") && negb (Ascii.eqb c "'").

Definition plain (s : string) : bool :=
  forallb plain_char (list_ascii_of_string s).

(** What [subprocess.Popen(command, stdout=PIPE, stderr=PIPE).communicate()]
    returns for a command: the bytes the process wrote to standard output
    and to standard error, or the exception raised when it cannot start. *)
Abbreviation subprocess := (list string → result (Bytes.bytes * Bytes.bytes)).

(** The separator of the split is the source's ['\\r\\n']: the four
    characters backslash, r, backslash, n, as [repr] writes a carriage
    return and a line feed. *)
Definition cmd_execute (Popen_communicate : subprocess) (command : list string)
    : result (list string) :=
  command_output ← Popen_communicate command;
  Str.split (Str.strip_chars "b'" (Bytes.str command_output.1)) "\r\n".

(** ** [cmd_status] *)

(** [print(s)] on the standard output read so far. *)
Definition print (s : string) (stdout : string) : string :=
  stdout +:+ s +:+ Str.nl.

(** [cmd_status] returns the standard output after the call and either
    [None] or the exception raised. *)
Definition cmd_status (command command_output : list string) (stdout : string)
    : string * result () :=
  if negb (existsb (λ line, Str.contains "completed successfully" line) command_output)
  then
    let stdout := print (Str.join Str.nl command_output) stdout in
    (stdout, Raise (Exception ("failed to execute: " +:+ Str.join " " command)))
  else (stdout, Ok ()).

(** ** [format_output] *)

(** An element of the formatted list: a line, or the fields of a line. *)
Inductive row : Type :=
  | Scalar (line : string)
  | Fields (fields : list string).

Definition ignore_lines : list string :=
  [ "Informatica";
    "Copyright";
    "All Rights Reserved";
    "This Software is protected";
    "Invoked at";
    "Completed at";
    "completed successfully" ].

(** The truth value of a [str]: true unless it is empty. *)
Definition truthy (s : string) : bool :=
  match s with
  | EmptyString => false
  | String _ _ => true
  end.

(** The guard of the loop: [item and not any(s in item for s in ignore_lines)]. *)
Definition kept (item : string) : bool :=
  truthy item && negb (existsb (λ s, Str.contains s item) ignore_lines).

(** The [for] loop of [format_output]; [res] is the list built so far. *)
Fixpoint format_output_loop (command_output : list string) (field_separator : string)
    (res : list row) : result (list row) :=
  match command_output with
  | [] => Ok res
  | item :: rest =>
      if kept item then
        if Str.contains field_separator item then
          fields ← Str.split (Str.strip item) field_separator;
          format_output_loop rest field_separator (res ++ [Fields fields])
        else
          format_output_loop rest field_separator (res ++ [Scalar (Str.strip item)])
      else format_output_loop rest field_separator res
  end.

Definition format_output (command_output : list string) (field_separator : string)
    : result (list row) :=
  format_output_loop command_output field_separator [].

(** The specification's reading of one surviving line: the line is
    trimmed, then split on the separator when the separator occurs in the
    untrimmed line, and kept as one string otherwise. *)
Definition trimmed_row (field_separator item : string) : result row :=
  if Str.contains field_separator item
  then fields ← Str.split (Str.strip item) field_separator; Ok (Fields fields)
  else Ok (Scalar (Str.strip item)).

(** The whitespace characters of [str.strip()] among the characters with
    codes below 256: tab, line feed, vertical tab, form feed, carriage
    return, the four separators 28 to 31, space, next line and the
    no-break space. *)
Definition whitespace (c : ascii) : Prop :=
  nat_of_ascii c ∈ [9; 10; 11; 12; 13; 28; 29; 30; 31; 32; 133; 160].

(** The specification's reading of trimming: [trimmed] is [line] without
    the whitespace at its two ends. *)
Definition is_trimmed (line trimmed : string) : Prop :=
  ∃ left right,
    line = left +:+ trimmed +:+ right
    ∧ Forall whitespace (list_ascii_of_string left)
    ∧ Forall whitespace (list_ascii_of_string right)
    ∧ (∀ c t, trimmed = String c t → ¬ whitespace c)
    ∧ (∀ t c, trimmed = t +:+ String c "" → ¬ whitespace c).

(** The specification's reading of splitting on a separator: a text in
    which the separator does not occur is one field; otherwise the text
    is cut at the first occurrence of the separator, what stands before
    it is the first field, and what stands after it is split in the same
    way. *)
Inductive is_split (sep : string) : string → list string → Prop :=
  | is_split_one (s : string) :
      ¬ Str.occurs_in sep s → is_split sep s [s]
  | is_split_cut (field rest : string) (fields : list string) :
      (∀ a b, field +:+ sep +:+ rest = a +:+ sep +:+ b →
              String.length field ≤ String.length a) →
      is_split sep rest fields →
      is_split sep (field +:+ sep +:+ rest) (field :: fields).

(** ** [create_import_control_xml] *)

(** The files, and which paths [open(path, 'w')] can open.  Several paths
    can name one file (a relative and an absolute path, a link): [resolve]
    gives the file that a path names, and [files] holds, for each file,
    the text written to it. *)
Record filesystem : Type := {
  files : gmap string string;
  resolve : string → string;
  can_open : string → bool
}.

(** [open(path, 'w')]: creates or truncates the file. *)
Definition open_w (path : string) (fs : filesystem) : result filesystem :=
  if can_open fs path
  then Ok {| files := <[resolve fs path := ""]> (files fs);
             resolve := resolve fs;
             can_open := can_open fs |}
  else Raise (OSError path).

(** [f.write(text)] on the file opened at [path]. *)
Definition write (path text : string) (fs : filesystem) : filesystem :=
  {| files := alter (λ old, old +:+ text) (resolve fs path) (files fs);
     resolve := resolve fs;
     can_open := can_open fs |}.

(** Reading a file back: its content, if it exists. *)
Definition read (path : string) (fs : filesystem) : option string :=
  files fs !! resolve fs path.

(** [s] between double quotes. *)
Definition quoted (s : string) : string := Str.dq +:+ s +:+ Str.dq.

(** The template literal, line by line. *)
Definition template : string :=
  "<?xml version=" +:+ quoted "1.0" +:+ " encoding=" +:+ quoted "ISO-8859-1" +:+ "?>" +:+ Str.nl +:+
  "<!DOCTYPE IMPORTPARAMS SYSTEM " +:+ quoted "{dtd}" +:+ ">" +:+ Str.nl +:+
  "<IMPORTPARAMS CHECKIN_AFTER_IMPORT=" +:+ quoted "NO" +:+ ">" +:+ Str.nl +:+
  "<FOLDERMAP SOURCEFOLDERNAME=" +:+ quoted "{src_folder}" +:+
    " SOURCEREPOSITORYNAME=" +:+ quoted "{src_repo}" +:+
    " TARGETFOLDERNAME=" +:+ quoted "{tgt_folder}" +:+
    " TARGETREPOSITORYNAME=" +:+ quoted "{tgt_repo}" +:+ "/>" +:+ Str.nl +:+
  "<RESOLVECONFLICT>" +:+ Str.nl +:+
  "<TYPEOBJECT OBJECTTYPENAME = " +:+ quoted "ALL" +:+ " RESOLUTION=" +:+ quoted "REPLACE" +:+ "/>" +:+ Str.nl +:+
  "</RESOLVECONFLICT>" +:+ Str.nl +:+
  "</IMPORTPARAMS>".

Definition create_import_control_xml
    (xml_output src_folder src_repo tgt_folder tgt_repo dtd : string)
    (fs : filesystem) : result filesystem :=
  text ← Str.format template
           [ ("src_folder", src_folder); ("src_repo", src_repo);
             ("tgt_folder", tgt_folder); ("tgt_repo", tgt_repo); ("dtd", dtd) ];
  f ← open_w xml_output fs;
  Ok (write xml_output text f).

(** The specification's reading of the control file: the fixed document,
    line by line, with the five values in place as they are. *)
Definition control_file_lines (src_folder src_repo tgt_folder tgt_repo dtd : string)
    : list string :=
  [ "<?xml version=" +:+ quoted "1.0" +:+ " encoding=" +:+ quoted "ISO-8859-1" +:+ "?>";
    "<!DOCTYPE IMPORTPARAMS SYSTEM " +:+ quoted dtd +:+ ">";
    "<IMPORTPARAMS CHECKIN_AFTER_IMPORT=" +:+ quoted "NO" +:+ ">";
    "<FOLDERMAP SOURCEFOLDERNAME=" +:+ quoted src_folder +:+
      " SOURCEREPOSITORYNAME=" +:+ quoted src_repo +:+
      " TARGETFOLDERNAME=" +:+ quoted tgt_folder +:+
      " TARGETREPOSITORYNAME=" +:+ quoted tgt_repo +:+ "/>";
    "<RESOLVECONFLICT>";
    "<TYPEOBJECT OBJECTTYPENAME = " +:+ quoted "ALL" +:+ " RESOLUTION="
      +:+ quoted "REPLACE" +:+ "/>";
    "</RESOLVECONFLICT>";
    "</IMPORTPARAMS>" ].

Definition control_file_text (src_folder src_repo tgt_folder tgt_repo dtd : string)
    : string :=
  Str.join Str.nl (control_file_lines src_folder src_repo tgt_folder tgt_repo dtd).

(** The fixed text of the control file around the five values: before
    the DTD, between two values, after the last one.  Each piece ends
    with the double quote that opens a value; the value's closing quote
    comes before the next piece. *)
Definition before_dtd : string :=
  "<?xml version=" +:+ quoted "1.0" +:+ " encoding=" +:+ quoted "ISO-8859-1"
    +:+ "?>" +:+ Str.nl +:+ "<!DOCTYPE IMPORTPARAMS SYSTEM " +:+ Str.dq.

Definition before_src_folder : string :=
  ">" +:+ Str.nl +:+ "<IMPORTPARAMS CHECKIN_AFTER_IMPORT=" +:+ quoted "NO" +:+ ">"
    +:+ Str.nl +:+ "<FOLDERMAP SOURCEFOLDERNAME=" +:+ Str.dq.

Definition before_src_repo : string := " SOURCEREPOSITORYNAME=" +:+ Str.dq.

Definition before_tgt_folder : string := " TARGETFOLDERNAME=" +:+ Str.dq.

Definition before_tgt_repo : string := " TARGETREPOSITORYNAME=" +:+ Str.dq.

Definition after_tgt_repo : string :=
  "/>" +:+ Str.nl +:+ "<RESOLVECONFLICT>" +:+ Str.nl +:+
  "<TYPEOBJECT OBJECTTYPENAME = " +:+ quoted "ALL" +:+ " RESOLUTION="
    +:+ quoted "REPLACE" +:+ "/>" +:+ Str.nl +:+
  "</RESOLVECONFLICT>" +:+ Str.nl +:+ "</IMPORTPARAMS>".

(** ** Proof tools *)

#[local] Arguments String.append !s1 s2 : simpl nomatch.

(** Membership and non-membership in a list written out in full. *)
Ltac in_literal :=
  unfold keys; cbn [fmap list_fmap fst];
  rewrite ?elem_of_cons, ?elem_of_nil;
  first [tauto | intuition discriminate].

(** Whether two strings agree as far as both go, and whether an
    occurrence of [sep] can begin inside [piece], ending in it or after
    it. *)
Fixpoint agree (p u : string) : bool :=
  match p, u with
  | EmptyString, _ => true
  | _, EmptyString => true
  | String a p', String b u' => Ascii.eqb a b && agree p' u'
  end.

Fixpoint may_start (sep piece : string) : bool :=
  match piece with
  | EmptyString => false
  | String _ piece' => agree sep piece || may_start sep piece'
  end.

(** * Properties *)

(** ** Sample runs of the [str] operations *)

Example split_samples :
  Str.split "A|B|C" "|" = Ok ["A"; "B"; "C"]
  ∧ Str.split "aaa" "aa" = Ok [""; "a"]
  ∧ Str.split "" "|" = Ok [""]
  ∧ Str.split "a, b,, c," ", " = Ok ["a"; "b,"; "c,"]
  ∧ Str.split "|x|" "|" = Ok [""; "x"; ""].
Proof. vm_compute. repeat split. Qed.

Example strip_samples :
  Str.strip "  x  " = "x" ∧ Str.strip "   " = "" ∧ Str.strip " a b " = "a b"
  ∧ Str.strip_chars "b'" "b'bob'" = "o".
Proof. vm_compute. repeat split. Qed.

Example format_samples :
  Str.format "a{x}b{{c}}{y}" [("x", "1"); ("y", "{x}")] = Ok "a1b{c}{x}"
  ∧ Str.format "{z}" [("x", "1")] = Raise (KeyError "z")
  ∧ Str.format "{0}" [("x", "1")]
    = Raise (IndexError "Replacement index 0 out of range for positional args tuple")
  ∧ Str.format "{a" [("a", "1")] = Raise (ValueError "expected '}' before end of string")
  ∧ Str.format "a}b" [] = Raise (ValueError "Single '}' encountered in format string").
Proof. vm_compute. repeat split. Qed.

Example bytes_str_samples :
  Bytes.str (Bytes.of_string "ok" ++ [Byte.x0d; Byte.x0a; Byte.x09; Byte.xff])
  = "b'ok\r\n\t\xff'"
  ∧ Bytes.str (Bytes.of_string "it's") = "b" +:+ quoted "it's".
Proof. vm_compute. repeat split. Qed.

Example cmd_prepare_sample :
  cmd_prepare [("r", PStr "repo"); ("v", PBool true); ("q", PBool false)]
              ["r"] ["v"; "q"]
  = Ok [PStr "-r"; PStr "repo"; PStr "-v"].
Proof. vm_compute. reflexivity. Qed.

(** ** Facts about the [str] operations *)

Lemma append_assoc (a b c : string) : (a +:+ b) +:+ c = a +:+ (b +:+ c).
Proof. induction a as [|x a IH]; simpl; [reflexivity | by f_equal]. Qed.

Lemma append_empty_r (a : string) : a +:+ "" = a.
Proof. induction a as [|x a IH]; simpl; [reflexivity | by f_equal]. Qed.

Lemma startswith_spec (p s : string) :
  Str.startswith p s = true ↔ ∃ rest, s = p +:+ rest.
Proof.
  revert s. induction p as [|a p IH]; intros s; simpl.
  - split; [intros _; by exists s | done].
  - destruct s as [|b s].
    + split; [done | intros [rest Hrest]; discriminate].
    + destruct (Ascii.eqb_spec a b) as [->|Hne].
      * rewrite IH. split; intros [rest Hrest]; exists rest; congruence.
      * split; [done | intros [rest Hrest]; congruence].
Qed.

(** [Str.contains] decides [Str.occurs_in]. *)
Lemma contains_spec (sub s : string) :
  Str.contains sub s = true ↔ Str.occurs_in sub s.
Proof.
  unfold Str.occurs_in. induction s as [|c s IH].
  - simpl. rewrite orb_false_r, startswith_spec. split.
    + intros [rest Hrest]. by exists "", rest.
    + intros ([|x before] & after & Heq); simpl in Heq; [by exists after | discriminate].
  - cbn [Str.contains]. rewrite orb_true_iff, startswith_spec, IH. split.
    + intros [[rest Hrest] | (before & after & Heq)].
      * by exists "", rest.
      * exists (String c before), after. simpl. by rewrite Heq.
    + intros ([|x before] & after & Heq); simpl in Heq.
      * left. by exists after.
      * right. exists before, after. congruence.
Qed.

Lemma contains_false (sub s : string) :
  Str.contains sub s = false ↔ ¬ Str.occurs_in sub s.
Proof.
  rewrite <- contains_spec. destruct (Str.contains sub s); split; congruence.
Qed.

Lemma occurs_in_refl (s : string) : Str.occurs_in s s.
Proof. exists "", "". simpl. by rewrite append_empty_r. Qed.

Lemma occurs_in_append_r (sub a b : string) :
  Str.occurs_in sub b → Str.occurs_in sub (a +:+ b).
Proof.
  intros (x & y & ->). exists (a +:+ x), y. by rewrite append_assoc.
Qed.

Lemma occurs_in_append_l (sub a b : string) :
  Str.occurs_in sub a → Str.occurs_in sub (a +:+ b).
Proof.
  intros (x & y & ->). exists x, (y +:+ b). by rewrite !append_assoc.
Qed.

Lemma length_append (a b : string) :
  String.length (a +:+ b) = String.length a + String.length b.
Proof. induction a as [|x a IH]; simpl; [reflexivity | by f_equal]. Qed.

(** Passing over the rest of an occurrence of the separator. *)
Lemma split_scan_skip (sep rem s cur : string) :
  Str.split_scan sep (rem +:+ s) (String.length rem) cur = Str.split_scan sep s 0 cur.
Proof. induction rem as [|c rem IH]; simpl; [by destruct s | exact IH]. Qed.

Lemma split_scan_nonempty (sep s : string) (skip : nat) (cur : string) :
  Str.split_scan sep s skip cur ≠ [].
Proof.
  revert skip cur. induction s as [|c s IH]; intros skip cur; simpl; [done|].
  destruct skip; [|apply IH]. by destruct (Str.startswith sep (String c s)).
Qed.

Lemma join_cons (sep x : string) (l : list string) :
  l ≠ [] → Str.join sep (x :: l) = x +:+ sep +:+ Str.join sep l.
Proof. by destruct l. Qed.

Lemma split_scan_join (sep : string) (n : nat) :
  sep ≠ "" →
  ∀ s cur, String.length s ≤ n →
    Str.join sep (Str.split_scan sep s 0 cur) = cur +:+ s.
Proof.
  intros Hsep. induction n as [|n IH]; intros s cur Hlen.
  - destruct s; [|simpl in Hlen; lia]. simpl. by rewrite append_empty_r.
  - destruct s as [|c s]; [simpl; by rewrite append_empty_r|].
    cbn [Str.split_scan].
    destruct (Str.startswith sep (String c s)) eqn:Hstart.
    + apply startswith_spec in Hstart as [rest Hrest].
      destruct sep as [|a sep']; [done|]. simpl in Hrest.
      injection Hrest as -> ->.
      replace (String.length (String a sep') - 1) with (String.length sep')
        by (simpl; lia).
      rewrite split_scan_skip, join_cons by apply split_scan_nonempty.
      rewrite IH; [done|]. simpl in Hlen. rewrite length_append in Hlen. lia.
    + rewrite IH by (simpl in Hlen; lia). by rewrite append_assoc.
Qed.

(** Joining the fields of [s.split(sep)] with [sep] gives [s] back. *)
Lemma split_join (s sep : string) (fields : list string) :
  Str.split s sep = Ok fields → Str.join sep fields = s.
Proof.
  unfold Str.split. destruct sep as [|a sep'] eqn:Hsep; [done|].
  intros [= <-]. by rewrite (split_scan_join _ (String.length s)).
Qed.

(** What the two halves of [strip] remove and what they leave. *)
Lemma lstrip_by_spec (drop : ascii → bool) (s : string) :
  ∃ removed,
    s = removed +:+ Str.lstrip_by drop s
    ∧ forallb drop (list_ascii_of_string removed) = true
    ∧ match Str.lstrip_by drop s with
      | EmptyString => True
      | String c _ => drop c = false
      end.
Proof.
  induction s as [|c s (removed & Heq & Hall & Hfirst)].
  - by exists "".
  - simpl. destruct (drop c) eqn:Hc.
    + exists (String c removed). simpl. rewrite Hc. by rewrite <- Heq.
    + by exists "".
Qed.

Lemma rstrip_by_spec (drop : ascii → bool) (s : string) :
  ∃ removed,
    s = Str.rstrip_by drop s +:+ removed
    ∧ forallb drop (list_ascii_of_string removed) = true.
Proof.
  induction s as [|c s (removed & Heq & Hall)].
  - by exists "".
  - simpl. destruct (Str.rstrip_by drop s) as [|d r] eqn:Hr.
    + destruct (drop c) eqn:Hc.
      * exists (String c removed). simpl in *. subst s. by rewrite Hc.
      * exists removed. simpl in *. by subst s.
    + exists removed. split; [|done]. simpl in Heq |- *. by rewrite <- Heq.
Qed.

(** [s.strip()] is [s] without a run of blanks at each end. *)
Lemma strip_spec (s : string) :
  ∃ left right,
    s = left +:+ Str.strip s +:+ right
    ∧ forallb Str.isspace (list_ascii_of_string left) = true
    ∧ forallb Str.isspace (list_ascii_of_string right) = true.
Proof.
  destruct (lstrip_by_spec Str.isspace s) as (left & Hl & Hleft & _).
  destruct (rstrip_by_spec Str.isspace (Str.lstrip_by Str.isspace s))
    as (right & Hr & Hright).
  exists left, right. unfold Str.strip. by rewrite <- Hr.
Qed.

Lemma startswith_first (a c : ascii) (sep s : string) :
  a ≠ c → Str.startswith (String a sep) (String c s) = false.
Proof. intros Hne. simpl. by destruct (Ascii.eqb_spec a c). Qed.

Lemma startswith_refl_append (p s : string) : Str.startswith p (p +:+ s) = true.
Proof. apply startswith_spec. by exists s. Qed.

Lemma mem_char_false (c : ascii) (s : string) :
  Str.mem_char c s = false ↔ ∀ a b, s ≠ a +:+ String c b.
Proof.
  induction s as [|d s IH]; simpl.
  - split; [|done]. intros _ [|x a] b; discriminate.
  - rewrite orb_false_iff, IH. split.
    + intros [Hne Hs] [|x a] b; simpl; intros [= -> Heq].
      * by rewrite Ascii.eqb_refl in Hne.
      * by apply (Hs a b).
    + intros Hs. split.
      * destruct (Ascii.eqb_spec c d) as [->|]; [|done]. by destruct (Hs "" s).
      * intros a b ->. by apply (Hs (String d a) b).
Qed.

Lemma mem_char_append (c : ascii) (a b : string) :
  Str.mem_char c (a +:+ b) = Str.mem_char c a || Str.mem_char c b.
Proof.
  induction a as [|x a IH]; simpl; [done|]. by rewrite IH, orb_assoc.
Qed.

(** A field without the first character of the separator is read to its
    end. *)
Lemma split_scan_field (a : ascii) (sep' f rest cur : string) :
  Str.mem_char a f = false →
  Str.split_scan (String a sep') (f +:+ rest) 0 cur
  = Str.split_scan (String a sep') rest 0 (cur +:+ f).
Proof.
  revert cur. induction f as [|c f IH]; intros cur Hf.
  - simpl. by rewrite append_empty_r.
  - simpl in Hf. apply orb_false_iff in Hf as [Hc Hf].
    change (String c f +:+ rest) with (String c (f +:+ rest)).
    cbn [Str.split_scan]. rewrite startswith_first.
    + rewrite IH by done. by rewrite append_assoc.
    + intros ->. by rewrite Ascii.eqb_refl in Hc.
Qed.

(** Splitting what [join] built gives the joined fields back, when no
    field holds the first character of the separator. *)
Lemma split_scan_of_join (a : ascii) (sep' : string) (fields : list string) :
  fields ≠ [] →
  Forall (λ f, Str.mem_char a f = false) fields →
  ∀ cur, Str.split_scan (String a sep') (Str.join (String a sep') fields) 0 cur
         = match fields with
           | [] => []
           | f :: fs => (cur +:+ f) :: fs
           end.
Proof.
  intros Hne Hall. induction Hall as [|f fs Hf Hfs IH]; [done|]. intros cur.
  destruct fs as [|g fs].
  - simpl. rewrite <- (append_empty_r f) at 1.
    by rewrite split_scan_field.
  - rewrite join_cons by done. rewrite split_scan_field by done.
    change (String a sep' +:+ ?s) with (String a (sep' +:+ s)).
    cbn [Str.split_scan].
    change (String a (sep' +:+ ?s)) with (String a sep' +:+ s).
    rewrite startswith_refl_append.
    replace (String.length (String a sep') - 1) with (String.length sep')
      by (simpl; lia).
    by rewrite split_scan_skip, IH.
Qed.

Lemma split_of_join (sep : string) (fields : list string) (a : ascii) (sep' : string) :
  sep = String a sep' → fields ≠ [] →
  Forall (λ f, Str.mem_char a f = false) fields →
  Str.split (Str.join sep fields) sep = Ok fields.
Proof.
  intros -> Hne Hall. unfold Str.split.
  rewrite split_scan_of_join by done. by destruct fields.
Qed.

(** [strip] leaves a string alone that neither starts nor ends with a
    character of the set. *)
Lemma lstrip_by_id (drop : ascii → bool) (s : string) :
  (∀ c t, s = String c t → drop c = false) → Str.lstrip_by drop s = s.
Proof.
  destruct s as [|c s]; [done|]. intros Hfirst. simpl.
  by rewrite (Hfirst c s).
Qed.

Lemma rstrip_by_id (drop : ascii → bool) (s : string) :
  (∀ t c, s = t +:+ String c "" → drop c = false) → Str.rstrip_by drop s = s.
Proof.
  induction s as [|x s IH]; [done|]. intros Hlast. simpl.
  destruct s as [|y s].
  - simpl. by rewrite (Hlast "" x).
  - rewrite IH; [done|]. intros t c Heq. apply (Hlast (String x t)).
    simpl. by rewrite Heq.
Qed.

Lemma rstrip_by_dropped (drop : ascii → bool) (s : string) (c : ascii) :
  drop c = true → Str.rstrip_by drop (s +:+ String c "") = Str.rstrip_by drop s.
Proof.
  intros Hc. induction s as [|x s IH]; simpl; [by rewrite Hc|]. by rewrite IH.
Qed.

(** ** [cmd_prepare] *)

Lemma in_list_true (key : string) (opts : list string) :
  in_list key opts = true ↔ key ∈ opts.
Proof. unfold in_list. by rewrite bool_decide_eq_true. Qed.

Lemma in_list_false (key : string) (opts : list string) :
  in_list key opts = false ↔ key ∉ opts.
Proof. unfold in_list. by rewrite bool_decide_eq_false. Qed.

(** The loop only appends to the list it is given. *)
Lemma cmd_prepare_loop_acc (items : dict) (opts_args opts_flags : list string)
    (command : list pyval) :
  cmd_prepare_loop items opts_args opts_flags command
  = out ← cmd_prepare_loop items opts_args opts_flags []; Ok (command ++ out).
Proof.
  revert command. induction items as [|[key value] rest IH]; intros command.
  - simpl. by rewrite app_nil_r.
  - cbn [cmd_prepare_loop].
    repeat case_match; try reflexivity.
    + rewrite IH, (IH ([] ++ _)).
      destruct (cmd_prepare_loop rest opts_args opts_flags []); simpl; [|done].
      by rewrite <- app_assoc.
    + rewrite IH, (IH ([] ++ _)).
      destruct (cmd_prepare_loop rest opts_args opts_flags []); simpl; [|done].
      by rewrite <- app_assoc.
    + apply IH.
Qed.

Lemma cmd_prepare_loop_app (pre post : dict) (opts_args opts_flags : list string)
    (command : list pyval) :
  cmd_prepare_loop (pre ++ post) opts_args opts_flags command
  = a ← cmd_prepare_loop pre opts_args opts_flags command;
    b ← cmd_prepare_loop post opts_args opts_flags [];
    Ok (a ++ b).
Proof.
  revert command. induction pre as [|[key value] rest IH]; intros command.
  - simpl. apply cmd_prepare_loop_acc.
  - cbn [app cmd_prepare_loop]. repeat case_match; try reflexivity; apply IH.
Qed.

(** Iterating over two runs of items one after the other. *)
Lemma cmd_prepare_app (pre post : dict) (opts_args opts_flags : list string) :
  cmd_prepare (pre ++ post) opts_args opts_flags
  = a ← cmd_prepare pre opts_args opts_flags;
    b ← cmd_prepare post opts_args opts_flags;
    Ok (a ++ b).
Proof. apply cmd_prepare_loop_app. Qed.

(** The tokens of one item, when the iteration over the rest succeeds. *)
Lemma cmd_prepare_cons (key : string) (value : pyval) (rest : dict)
    (opts_args opts_flags : list string) :
  cmd_prepare ((key, value) :: rest) opts_args opts_flags
  = a ← cmd_prepare [(key, value)] opts_args opts_flags;
    b ← cmd_prepare rest opts_args opts_flags;
    Ok (a ++ b).
Proof. apply (cmd_prepare_app [(key, value)] rest). Qed.

(** What the loop body does for one item, by the case the key falls in. *)
Lemma cmd_prepare_one_argument (key : string) (value : pyval)
    (opts_args opts_flags : list string) :
  key ∈ opts_args →
  cmd_prepare [(key, value)] opts_args opts_flags = Ok [PStr ("-" +:+ key); value].
Proof.
  intros Hin%in_list_true. unfold cmd_prepare. simpl. by rewrite Hin.
Qed.

Lemma cmd_prepare_one_flag (key : string) (value : pyval)
    (opts_args opts_flags : list string) :
  key ∉ opts_args → key ∈ opts_flags →
  cmd_prepare [(key, value)] opts_args opts_flags
  = Ok (if eq_True value then [PStr ("-" +:+ key)] else []).
Proof.
  intros Hargs%in_list_false Hflags. unfold cmd_prepare. simpl.
  assert (in_list key (opts_args ++ opts_flags) = true) as Hboth.
  { apply in_list_true, elem_of_app. by right. }
  apply in_list_true in Hflags. rewrite Hargs, Hflags, Hboth.
  by destruct (eq_True value).
Qed.

Lemma cmd_prepare_one_unsupported (key : string) (value : pyval)
    (opts_args opts_flags : list string) :
  key ∉ opts_args → key ∉ opts_flags →
  cmd_prepare [(key, value)] opts_args opts_flags
  = Raise (Exception ("unsupported option: " +:+ key)).
Proof.
  intros Hargs Hflags. unfold cmd_prepare. simpl.
  assert (in_list key (opts_args ++ opts_flags) = false) as Hboth.
  { apply in_list_false. rewrite elem_of_app. tauto. }
  apply in_list_false in Hargs, Hflags. by rewrite Hargs, Hflags, Hboth.
Qed.

(** A configuration whose keys are all recognized raises nothing. *)
Lemma cmd_prepare_supported (params : dict) (opts_args opts_flags : list string) :
  (∀ k, k ∈ keys params → k ∈ opts_args ∨ k ∈ opts_flags) →
  ∃ command, cmd_prepare params opts_args opts_flags = Ok command.
Proof.
  induction params as [|[key value] rest IH]; intros Hkeys.
  - by exists [].
  - destruct IH as [b Hb].
    { intros k Hk. apply Hkeys. unfold keys in *. simpl. by right. }
    rewrite cmd_prepare_cons, Hb.
    destruct (decide (key ∈ opts_args)) as [Hargs|Hargs].
    + rewrite cmd_prepare_one_argument by done. by eexists.
    + rewrite cmd_prepare_one_flag; [by eexists | done |].
      destruct (Hkeys key) as [?|?]; [by left | done | done].
Qed.

(** The iteration stops at the first key that is in neither list. *)
Lemma cmd_prepare_raises_at (pre post : dict) (key : string) (value : pyval)
    (opts_args opts_flags : list string) :
  (∀ k, k ∈ keys pre → k ∈ opts_args ∨ k ∈ opts_flags) →
  key ∉ opts_args → key ∉ opts_flags →
  cmd_prepare (pre ++ (key, value) :: post) opts_args opts_flags
  = Raise (Exception ("unsupported option: " +:+ key)).
Proof.
  intros Hpre Hargs Hflags.
  destruct (cmd_prepare_supported pre opts_args opts_flags Hpre) as [a Ha].
  rewrite (cmd_prepare_app pre), Ha, (cmd_prepare_cons key).
  by rewrite cmd_prepare_one_unsupported.
Qed.

(** C1. When every key of the configuration is an argument option,
    [cmd_prepare] returns a list of exactly twice as many tokens as there
    are keys: for the i-th item, in insertion order, token [2i] is the key
    with a dash before it and token [2i+1] is the item's value. *)
Theorem cmd_prepare_argument_options (params : dict)
    (opts_args opts_flags : list string) :
  (∀ key, key ∈ keys params → key ∈ opts_args) →
  ∃ command,
    cmd_prepare params opts_args opts_flags = Ok command
    ∧ length command = 2 * length params
    ∧ ∀ i key value, params !! i = Some (key, value) →
        command !! (2 * i) = Some (PStr ("-" +:+ key))
        ∧ command !! (2 * i + 1) = Some value.
Proof.
  induction params as [|[k v] rest IH]; intros Hkeys.
  - exists []. split; [done|]. split; [done|].
    intros i key value Hi. by rewrite lookup_nil in Hi.
  - destruct IH as (b & Hb & Hlen & Hix).
    { intros key Hkey. apply Hkeys. unfold keys in *. simpl. by right. }
    exists (PStr ("-" +:+ k) :: v :: b).
    rewrite cmd_prepare_cons, Hb, cmd_prepare_one_argument.
    + split; [done|]. split; [simpl; lia|].
      intros [|i] key value Hi.
      * simpl in Hi. by injection Hi as -> ->.
      * simpl in Hi. destruct (Hix i key value Hi) as [Heven Hodd].
        replace (2 * S i) with (S (S (2 * i))) by lia.
        replace (S (S (2 * i)) + 1) with (S (S (2 * i + 1))) by lia.
        by split.
    + apply Hkeys. unfold keys. simpl. by left.
Qed.

Lemma cmd_prepare_argument_options_witness :
  let params := [("r", PStr "repo"); ("f", PStr "dev"); ("n", PInt 3)] in
  let opts_args := ["f"; "n"; "r"] in
  (∀ key, key ∈ keys params → key ∈ opts_args)
  ∧ ∃ command,
      cmd_prepare params opts_args ["v"] = Ok command
      ∧ length command = 2 * length params
      ∧ ∀ i key value, params !! i = Some (key, value) →
          command !! (2 * i) = Some (PStr ("-" +:+ key))
          ∧ command !! (2 * i + 1) = Some value.
Proof.
  assert (∀ key, key ∈ keys [("r", PStr "repo"); ("f", PStr "dev"); ("n", PInt 3)]
                 → key ∈ ["f"; "n"; "r"]) as Hkeys.
  { intros key. in_literal. }
  split; [exact Hkeys|].
  exact (cmd_prepare_argument_options _ _ ["v"] Hkeys).
Defined.

(** C2, as stated, fails: with two keys that are in neither list, the
    error names the first one only. *)
Lemma cmd_prepare_names_first_unsupported_only :
  "y" ∈ keys [("x", PStr "1"); ("y", PStr "2")]
  ∧ ("y" ∉ ["r"]) ∧ ("y" ∉ ["v"])
  ∧ cmd_prepare [("x", PStr "1"); ("y", PStr "2")] ["r"] ["v"]
    = Raise (Exception "unsupported option: x")
  ∧ ¬ ∃ msg, cmd_prepare [("x", PStr "1"); ("y", PStr "2")] ["r"] ["v"]
             = Raise (Exception msg)
             ∧ Str.occurs_in "y" msg.
Proof.
  split; [in_literal|].
  split; [in_literal|]. split; [in_literal|].
  split; [by vm_compute|].
  intros (msg & Hraise & Hocc). vm_compute in Hraise.
  injection Hraise as <-. by apply contains_spec in Hocc.
Qed.

(** C2, amended. A configuration that has a key in neither list makes
    [cmd_prepare] raise the unsupported-option error for the first such
    key in iteration order, and the message contains that key's name. *)
Theorem cmd_prepare_unsupported_option (params : dict)
    (opts_args opts_flags : list string) (key : string) :
  key ∈ keys params → key ∉ opts_args → key ∉ opts_flags →
  ∃ pre first value post,
    params = pre ++ (first, value) :: post
    ∧ (∀ k, k ∈ keys pre → k ∈ opts_args ∨ k ∈ opts_flags)
    ∧ (first ∉ opts_args) ∧ (first ∉ opts_flags)
    ∧ cmd_prepare params opts_args opts_flags
      = Raise (Exception ("unsupported option: " +:+ first))
    ∧ Str.occurs_in first ("unsupported option: " +:+ first).
Proof.
  intros Hkey Hargs Hflags.
  assert (∃ pre first value post,
    params = pre ++ (first, value) :: post
    ∧ (∀ k, k ∈ keys pre → k ∈ opts_args ∨ k ∈ opts_flags)
    ∧ (first ∉ opts_args) ∧ (first ∉ opts_flags)) as (pre & first & value & post & Hsplit).
  { induction params as [|[k v] rest IH]; [by apply elem_of_nil in Hkey|].
    destruct (decide (k ∈ opts_args ∨ k ∈ opts_flags)) as [Hk|Hk].
    - destruct IH as (pre & first & value & post & -> & Hpre & Hfirst).
      { unfold keys in Hkey. simpl in Hkey. apply elem_of_cons in Hkey as [->|?]; [|done].
        destruct Hk; contradiction. }
      exists ((k, v) :: pre), first, value, post. split; [done|]. split; [|done].
      intros k'. unfold keys. simpl. intros [->|?]%elem_of_cons; [done|by apply Hpre].
    - exists [], k, v, rest. split; [done|]. split; [|tauto].
      intros k' Hk'. by apply elem_of_nil in Hk'. }
  destruct Hsplit as (-> & Hpre & Hfa & Hff).
  exists pre, first, value, post. repeat split; try done.
  - by apply cmd_prepare_raises_at.
  - apply occurs_in_append_r, occurs_in_refl.
Qed.

Lemma cmd_prepare_unsupported_option_witness :
  "x" ∈ keys [("r", PStr "repo"); ("x", PStr "1"); ("v", PBool true)]
  ∧ ("x" ∉ ["r"]) ∧ ("x" ∉ ["v"])
  ∧ ∃ pre first value post,
      [("r", PStr "repo"); ("x", PStr "1"); ("v", PBool true)]
      = pre ++ (first, value) :: post
      ∧ (∀ k, k ∈ keys pre → k ∈ ["r"] ∨ k ∈ ["v"])
      ∧ (first ∉ ["r"]) ∧ (first ∉ ["v"])
      ∧ cmd_prepare [("r", PStr "repo"); ("x", PStr "1"); ("v", PBool true)] ["r"] ["v"]
        = Raise (Exception ("unsupported option: " +:+ first))
      ∧ Str.occurs_in first ("unsupported option: " +:+ first).
Proof.
  assert ("x" ∈ keys [("r", PStr "repo"); ("x", PStr "1"); ("v", PBool true)]) as Hkey.
  { in_literal. }
  assert ("x" ∉ ["r"]) as Hargs by in_literal.
  assert ("x" ∉ ["v"]) as Hflags by in_literal.
  repeat (split; [assumption|]).
  exact (cmd_prepare_unsupported_option _ _ _ "x" Hkey Hargs Hflags).
Defined.

(** An option that is listed in both lists is handled as an argument
    option: the value follows the key, whether it is true or false. *)
Example cmd_prepare_option_in_both_lists :
  cmd_prepare [("f", PBool true)] ["f"] ["f"; "q"] = Ok [PStr "-f"; PBool true]
  ∧ cmd_prepare [("f", PBool false)] ["f"] ["f"; "q"] = Ok [PStr "-f"; PBool false].
Proof. split; by vm_compute. Qed.

(** The tokens of a flag option that is not an argument option. *)
Lemma cmd_prepare_flag_only (pre post : dict) (key : string)
    (opts_args opts_flags : list string) (a b : list pyval) :
  key ∈ opts_flags → key ∉ opts_args →
  cmd_prepare pre opts_args opts_flags = Ok a →
  cmd_prepare post opts_args opts_flags = Ok b →
  cmd_prepare (pre ++ (key, PBool true) :: post) opts_args opts_flags
  = Ok (a ++ [PStr ("-" +:+ key)] ++ b)
  ∧ cmd_prepare (pre ++ (key, PBool false) :: post) opts_args opts_flags
    = Ok (a ++ b).
Proof.
  intros Hflags Hargs Ha Hb.
  rewrite !(cmd_prepare_app pre), Ha.
  rewrite (cmd_prepare_cons key (PBool true) post).
  rewrite (cmd_prepare_cons key (PBool false) post), Hb.
  by rewrite !cmd_prepare_one_flag.
Qed.

(** C3. The argument options and the flag options are two disjoint sets.
    For a key that is a flag option: with the value [True] the key
    contributes exactly the one token made of a dash and the key, and no
    value token, between the tokens of the items before it and of the
    items after it; with the value [False] it contributes no token. *)
Theorem cmd_prepare_flag_option_disjoint (pre post : dict) (key : string)
    (opts_args opts_flags : list string) (a b : list pyval) :
  (∀ k, k ∈ opts_args → k ∉ opts_flags) →
  key ∈ opts_flags →
  cmd_prepare pre opts_args opts_flags = Ok a →
  cmd_prepare post opts_args opts_flags = Ok b →
  cmd_prepare (pre ++ (key, PBool true) :: post) opts_args opts_flags
  = Ok (a ++ [PStr ("-" +:+ key)] ++ b)
  ∧ cmd_prepare (pre ++ (key, PBool false) :: post) opts_args opts_flags
    = Ok (a ++ b).
Proof.
  intros Hdisjoint Hflags Ha Hb.
  apply cmd_prepare_flag_only; [done| |done|done].
  intros Hargs. by apply (Hdisjoint key).
Qed.

Lemma cmd_prepare_flag_option_disjoint_witness :
  (∀ k, k ∈ ["r"] → k ∉ ["v"; "q"])
  ∧ "v" ∈ ["v"; "q"]
  ∧ cmd_prepare [("r", PStr "repo")] ["r"] ["v"; "q"] = Ok [PStr "-r"; PStr "repo"]
  ∧ cmd_prepare [("q", PBool true)] ["r"] ["v"; "q"] = Ok [PStr "-q"]
  ∧ cmd_prepare ([("r", PStr "repo")] ++ ("v", PBool true) :: [("q", PBool true)])
      ["r"] ["v"; "q"]
    = Ok ([PStr "-r"; PStr "repo"] ++ [PStr ("-" +:+ "v")] ++ [PStr "-q"])
  ∧ cmd_prepare ([("r", PStr "repo")] ++ ("v", PBool false) :: [("q", PBool true)])
      ["r"] ["v"; "q"]
    = Ok ([PStr "-r"; PStr "repo"] ++ [PStr "-q"]).
Proof.
  assert (∀ k, k ∈ ["r"] → k ∉ ["v"; "q"]) as Hdisjoint.
  { intros k ->%list_elem_of_singleton. in_literal. }
  assert ("v" ∈ ["v"; "q"]) as Hflags by in_literal.
  assert (cmd_prepare [("r", PStr "repo")] ["r"] ["v"; "q"]
          = Ok [PStr "-r"; PStr "repo"]) as Ha by (by vm_compute).
  assert (cmd_prepare [("q", PBool true)] ["r"] ["v"; "q"] = Ok [PStr "-q"]) as Hb
    by (by vm_compute).
  repeat (split; [assumption|]).
  exact (cmd_prepare_flag_option_disjoint _ _ "v" _ _ _ _ Hdisjoint Hflags Ha Hb).
Defined.

(** C10. A key that is a flag option and not an argument option, with a
    value that does not compare equal to [True], is silently dropped: the
    call behaves as if the item were absent, so the key adds no token and
    raises nothing.  [None], the string ["true"] and the empty string are
    such values. *)
Theorem cmd_prepare_flag_not_true_dropped (pre post : dict) (key : string)
    (value : pyval) (opts_args opts_flags : list string) :
  key ∈ opts_flags → key ∉ opts_args → eq_True value = false →
  cmd_prepare (pre ++ (key, value) :: post) opts_args opts_flags
  = cmd_prepare (pre ++ post) opts_args opts_flags
  ∧ (∀ a b,
      cmd_prepare pre opts_args opts_flags = Ok a →
      cmd_prepare post opts_args opts_flags = Ok b →
      cmd_prepare (pre ++ (key, value) :: post) opts_args opts_flags = Ok (a ++ b))
  ∧ eq_True PNone = false ∧ eq_True (PStr "true") = false ∧ eq_True (PStr "") = false.
Proof.
  intros Hflags Hargs Hvalue.
  assert (cmd_prepare (pre ++ (key, value) :: post) opts_args opts_flags
          = cmd_prepare (pre ++ post) opts_args opts_flags) as Hdrop.
  { rewrite !(cmd_prepare_app pre), (cmd_prepare_cons key value post).
    rewrite cmd_prepare_one_flag, Hvalue by done.
    destruct (cmd_prepare pre opts_args opts_flags); simpl; [|done].
    by destruct (cmd_prepare post opts_args opts_flags). }
  split; [exact Hdrop|]. split; [|done].
  intros a b Ha Hb. by rewrite Hdrop, (cmd_prepare_app pre), Ha, Hb.
Qed.

Lemma cmd_prepare_flag_not_true_dropped_witness :
  "v" ∈ ["v"] ∧ ("v" ∉ ["r"]) ∧ eq_True (PStr "true") = false
  ∧ cmd_prepare ([("r", PStr "repo")] ++ ("v", PStr "true") :: [("r2", PNone)])
      ["r"] ["v"]
    = cmd_prepare ([("r", PStr "repo")] ++ [("r2", PNone)]) ["r"] ["v"]
  ∧ cmd_prepare ([] ++ ("v", PStr "true") :: []) ["r"] ["v"] = Ok [].
Proof.
  assert ("v" ∈ ["v"]) as Hflags by in_literal.
  assert ("v" ∉ ["r"]) as Hargs by in_literal.
  assert (eq_True (PStr "true") = false) as Hvalue by reflexivity.
  repeat (split; [assumption|]).
  split.
  - exact (proj1 (cmd_prepare_flag_not_true_dropped
                    [("r", PStr "repo")] [("r2", PNone)] "v" _ ["r"] ["v"]
                    Hflags Hargs Hvalue)).
  - exact (proj1 (proj2 (cmd_prepare_flag_not_true_dropped
                    [] [] "v" _ ["r"] ["v"] Hflags Hargs Hvalue))
             [] [] eq_refl eq_refl).
Defined.

(** ** [cmd_status] *)

Lemma existsb_contains (sub : string) (lines : list string) :
  existsb (λ line, Str.contains sub line) lines = true
  ↔ ∃ line, line ∈ lines ∧ Str.occurs_in sub line.
Proof.
  rewrite existsb_exists. split; intros (line & Hin & Hsub); exists line.
  - by rewrite list_elem_of_In, <- contains_spec.
  - by rewrite <- list_elem_of_In, contains_spec.
Qed.

(** Every joined string occurs in the result of [join]. *)
Lemma join_occurs (sep line : string) (lines : list string) :
  line ∈ lines → Str.occurs_in line (Str.join sep lines).
Proof.
  induction lines as [|s rest IH]; [by intros ?%elem_of_nil|].
  intros [->|Hin]%elem_of_cons.
  - destruct rest; simpl; [apply occurs_in_refl|].
    apply occurs_in_append_l, occurs_in_refl.
  - destruct rest as [|s' rest']; [by apply elem_of_nil in Hin|].
    change (Str.join sep (s :: s' :: rest'))
      with (s +:+ sep +:+ Str.join sep (s' :: rest')).
    by apply occurs_in_append_r, occurs_in_append_r, IH.
Qed.


Example cmd_status_samples :
  cmd_status ["pmrep"; "connect"; "-r"; "repo"]
    ["connect completed successfully."; ""] "log:"
  = ("log:", Ok ())
  ∧ cmd_status ["pmrep"; "connect"; "-r"; "repo"] ["Failed to connect"; ""] "log:"
    = ("log:Failed to connect" +:+ Str.nl +:+ Str.nl,
       Raise (Exception "failed to execute: pmrep connect -r repo")).
Proof. split; by vm_compute. Qed.

(** ** [format_output] *)

(** The loop only appends to the list it is given. *)
Lemma format_output_loop_acc (command_output : list string) (sep : string)
    (res : list row) :
  format_output_loop command_output sep res
  = out ← format_output_loop command_output sep []; Ok (res ++ out).
Proof.
  revert res. induction command_output as [|item rest IH]; intros res.
  - simpl. by rewrite app_nil_r.
  - cbn [format_output_loop]. destruct (kept item); [|apply IH].
    destruct (Str.contains sep item).
    + destruct (Str.split (Str.strip item) sep) as [fields|e]; [|done].
      cbn [mbind result_bind]. rewrite IH, (IH ([] ++ _)).
      destruct (format_output_loop rest sep []); simpl; [|done].
      by rewrite <- app_assoc.
    + rewrite IH, (IH ([] ++ _)).
      destruct (format_output_loop rest sep []); simpl; [|done].
      by rewrite <- app_assoc.
Qed.

(** One step of the loop, seen from the caller. *)
Lemma format_output_cons (item : string) (rest : list string) (sep : string) :
  format_output (item :: rest) sep
  = if kept item
    then r ← trimmed_row sep item; rows ← format_output rest sep; Ok (r :: rows)
    else format_output rest sep.
Proof.
  unfold format_output, trimmed_row. cbn [format_output_loop].
  destruct (kept item); [|done].
  destruct (Str.contains sep item).
  - destruct (Str.split (Str.strip item) sep) as [fields|e]; [|done].
    cbn [mbind result_bind]. by rewrite format_output_loop_acc.
  - cbn [mbind result_bind]. by rewrite format_output_loop_acc.
Qed.

Lemma format_output_app (pre post : list string) (sep : string) :
  format_output (pre ++ post) sep
  = a ← format_output pre sep; b ← format_output post sep; Ok (a ++ b).
Proof.
  induction pre as [|item rest IH].
  - simpl. by destruct (format_output post sep).
  - cbn [app]. rewrite !format_output_cons, IH. destruct (kept item); [|done].
    destruct (trimmed_row sep item); [|done]. cbn [mbind result_bind].
    destruct (format_output rest sep); [|done]. cbn [mbind result_bind].
    by destruct (format_output post sep).
Qed.

(** The guard of the loop, read as a proposition. *)
Lemma kept_spec (item : string) :
  kept item = true
  ↔ item ≠ "" ∧ ∀ s, s ∈ ignore_lines → ¬ Str.occurs_in s item.
Proof.
  unfold kept. rewrite andb_true_iff, negb_true_iff. split.
  - intros [Hne Hnone]. split; [by intros ->|].
    intros s Hs Hocc.
    assert (existsb (λ s, Str.contains s item) ignore_lines = true) as Hex; [|congruence].
    apply existsb_exists. exists s. by rewrite <- list_elem_of_In, contains_spec.
  - intros [Hne Hnone]. split; [by destruct item|].
    destruct (existsb _ ignore_lines) eqn:Hex; [|done].
    apply existsb_exists in Hex as (s & Hs%list_elem_of_In & Hocc%contains_spec).
    by destruct (Hnone s Hs).
Qed.

(** A line that passes the guard and a non-empty separator give a row. *)
Lemma trimmed_row_ok (sep item : string) :
  sep ≠ "" → ∃ r, trimmed_row sep item = Ok r.
Proof.
  intros Hsep. unfold trimmed_row, Str.split.
  destruct (Str.contains sep item); [|by eexists].
  destruct sep; [done|]. by eexists.
Qed.

(** With the empty separator, which occurs in every line, the first line
    that passes the guard makes [str.split] raise. *)
Lemma trimmed_row_empty_separator (item : string) :
  trimmed_row "" item = Raise (ValueError "empty separator").
Proof. unfold trimmed_row. by destruct item. Qed.

(** A line of whitespace only holds none of the boilerplate texts and is
    trimmed to the empty string, so when it is not empty it passes the
    guard and gives one row. *)
Lemma all_space_append (a b : string) :
  forallb Str.isspace (list_ascii_of_string (a +:+ b))
  = forallb Str.isspace (list_ascii_of_string a)
    && forallb Str.isspace (list_ascii_of_string b).
Proof.
  induction a as [|c a IH]; [done|].
  change (String c a +:+ b) with (String c (a +:+ b)).
  cbn [list_ascii_of_string forallb]. by rewrite IH, andb_assoc.
Qed.

Lemma whitespace_line_kept (item : string) :
  item ≠ "" → forallb Str.isspace (list_ascii_of_string item) = true →
  kept item = true ∧ Str.strip item = "".
Proof.
  intros Hne Hspace. split.
  - apply kept_spec. split; [done|]. intros s Hs (before & after & ->).
    rewrite !all_space_append, !andb_true_iff in Hspace.
    destruct Hspace as (_ & Hs' & _). unfold ignore_lines in Hs.
    rewrite !elem_of_cons, elem_of_nil in Hs.
    destruct Hs as [->|[->|[->|[->|[->|[->|[->|[]]]]]]]]; by vm_compute in Hs'.
  - unfold Str.strip.
    assert (Str.lstrip_by Str.isspace item = "") as ->; [|done].
    clear Hne. induction item as [|c item IH]; [done|].
    cbn [list_ascii_of_string forallb] in Hspace.
    apply andb_true_iff in Hspace as [Hc Hrest]. cbn [Str.lstrip_by].
    rewrite Hc. by apply IH.
Qed.

Lemma format_output_whitespace_line (item field_separator : string) :
  item ≠ "" → forallb Str.isspace (list_ascii_of_string item) = true →
  field_separator ≠ "" →
  ∃ r, format_output [item] field_separator = Ok [r]
       ∧ (r = Scalar "" ∨ r = Fields [""]).
Proof.
  intros Hne Hspace Hsep.
  destruct (whitespace_line_kept item Hne Hspace) as [Hkept Hstrip].
  rewrite format_output_cons, Hkept. unfold trimmed_row. rewrite Hstrip.
  destruct (Str.contains field_separator item).
  - destruct field_separator; [done|]. eexists. split; [reflexivity|]. by right.
  - eexists. split; [reflexivity|]. by left.
Qed.

(** C5, as stated, fails: a line of blanks only is not empty, so it passes
    the guard and contributes its trimmed form, the empty string. *)
Lemma format_output_keeps_whitespace_line :
  forallb Str.isspace (list_ascii_of_string "   ") = true
  ∧ format_output ["   "] "|" = Ok [Scalar ""]
  ∧ format_output ["A|B"; "   "; "x"] "|" = Ok [Fields ["A"; "B"]; Scalar ""; Scalar "x"].
Proof. repeat split; by vm_compute. Qed.

(** C5, amended. [format_output] drops every empty line and every line
    that contains one of the boilerplate texts: the result is the same as
    without the line, and the line alone yields the empty list. *)
Theorem format_output_drops (pre post : list string) (item field_separator : string) :
  (item = ""
   ∨ ∃ s, s ∈ [ "Informatica"; "Copyright"; "All Rights Reserved";
                "This Software is protected"; "Invoked at"; "Completed at";
                "completed successfully" ]
          ∧ Str.occurs_in s item) →
  format_output (pre ++ item :: post) field_separator
  = format_output (pre ++ post) field_separator
  ∧ format_output [item] field_separator = Ok [].
Proof.
  intros Hdrop.
  assert (kept item = false) as Hkept.
  { destruct (kept item) eqn:Hk; [|done].
    apply kept_spec in Hk as [Hne Hnone].
    destruct Hdrop as [->|(s & Hs & Hocc)]; [done|].
    by destruct (Hnone s Hs). }
  split.
  - rewrite !(format_output_app pre), (format_output_cons item post).
    by rewrite Hkept.
  - by rewrite format_output_cons, Hkept.
Qed.

Lemma format_output_drops_witness :
  ("Informatica(r) PMREP, version [9.6.1]" = ""
   ∨ ∃ s, s ∈ [ "Informatica"; "Copyright"; "All Rights Reserved";
                "This Software is protected"; "Invoked at"; "Completed at";
                "completed successfully" ]
          ∧ Str.occurs_in s "Informatica(r) PMREP, version [9.6.1]")
  ∧ format_output (["A|B"] ++ "Informatica(r) PMREP, version [9.6.1]" :: ["x"]) "|"
    = format_output (["A|B"] ++ ["x"]) "|"
  ∧ format_output ["Informatica(r) PMREP, version [9.6.1]"] "|" = Ok [].
Proof.
  assert ("Informatica(r) PMREP, version [9.6.1]" = ""
   ∨ ∃ s, s ∈ [ "Informatica"; "Copyright"; "All Rights Reserved";
                "This Software is protected"; "Invoked at"; "Completed at";
                "completed successfully" ]
          ∧ Str.occurs_in s "Informatica(r) PMREP, version [9.6.1]") as Hdrop.
  { right. exists "Informatica". split; [in_literal|].
    apply contains_spec. by vm_compute. }
  split; [exact Hdrop|].
  exact (format_output_drops ["A|B"] ["x"] _ "|" Hdrop).
Defined.

(** The result as a map over the lines that pass the guard, in the
    order of the lines.  [str.split] rejects the empty separator, and
    then so does [format_output]. *)
Theorem format_output_rows (command_output : list string) (field_separator : string) :
  format_output command_output field_separator
  = mapM (trimmed_row field_separator) (List.filter kept command_output)
  ∧ (field_separator ≠ "" →
     ∃ rows,
       format_output command_output field_separator = Ok rows
       ∧ Forall2 (λ item r,
           (Str.occurs_in field_separator item →
            ∃ fields, Str.split (Str.strip item) field_separator = Ok fields
                      ∧ r = Fields fields)
           ∧ (¬ Str.occurs_in field_separator item → r = Scalar (Str.strip item)))
         (List.filter kept command_output) rows).
Proof.
  split.
  - induction command_output as [|item rest IH]; [done|].
    rewrite format_output_cons. cbn [List.filter].
    destruct (kept item); [|exact IH].
    cbn [mapM]. by rewrite IH.
  - intros Hsep. induction command_output as [|item rest IH].
    + exists []. split; [done|]. constructor.
    + destruct IH as (rows & Hrows & Hall).
      rewrite format_output_cons, Hrows. cbn [List.filter].
      destruct (kept item); [|by exists rows].
      unfold trimmed_row, Str.split.
      destruct (Str.contains field_separator item) eqn:Hocc.
      * destruct field_separator as [|c sep]; [done|]. cbn [mbind result_bind].
        eexists. split; [reflexivity|]. constructor; [|done]. split.
        -- intros _. by eexists.
        -- intros Hnot. by apply contains_false in Hnot; congruence.
      * cbn [mbind result_bind]. eexists. split; [reflexivity|].
        constructor; [|done]. split; [|done].
        intros Hin%contains_spec. congruence.
Qed.

Example format_output_trims_before_splitting :
  format_output ["  a | b  "] "|" = Ok [Fields ["a "; " b"]].
Proof. by vm_compute. Qed.

Example format_output_empty_separator :
  format_output ["x"] "" = Raise (ValueError "empty separator")
  ∧ format_output ["Copyright 2016"; ""] "" = Ok [].
Proof. split; by vm_compute. Qed.

(** C7. The sample of the specification: the banner, the invocation
    time stamp and the success line are dropped, the line with the
    separator is split and the padded line is trimmed. *)
Theorem format_output_sample :
  format_output
    ["Informatica banner"; "Invoked at 10:00"; "A|B|C"; "  x  "; "completed successfully"]
    "|"
  = Ok [Fields ["A"; "B"; "C"]; Scalar "x"].
Proof. vm_compute. reflexivity. Qed.

(** ** [create_import_control_xml] *)

(** The text [create_import_control_xml] writes: the template with
    each replacement field replaced by the argument of that name. *)
Lemma format_template (src_folder src_repo tgt_folder tgt_repo dtd : string) :
  Str.format template
    [ ("src_folder", src_folder); ("src_repo", src_repo);
      ("tgt_folder", tgt_folder); ("tgt_repo", tgt_repo); ("dtd", dtd) ]
  = Ok (control_file_text src_folder src_repo tgt_folder tgt_repo dtd).
Proof.
  unfold control_file_text, control_file_lines, Str.join, quoted.
  rewrite !append_assoc. vm_compute. reflexivity.
Qed.

Lemma occurs_in_trans (a b c : string) :
  Str.occurs_in a b → Str.occurs_in b c → Str.occurs_in a c.
Proof.
  intros (x & y & ->) (x' & y' & ->).
  exists (x' +:+ x), (y +:+ y'). by rewrite !append_assoc.
Qed.

(** The template names each of the five values once and holds one
    conflict rule. *)
Lemma template_fields :
  Str.count "{dtd}" template = 1 ∧ Str.count "{src_folder}" template = 1
  ∧ Str.count "{src_repo}" template = 1 ∧ Str.count "{tgt_folder}" template = 1
  ∧ Str.count "{tgt_repo}" template = 1 ∧ Str.count "{" template = 5
  ∧ Str.count "<TYPEOBJECT" template = 1.
Proof. repeat split; by vm_compute. Qed.

(** X13. When the file cannot be opened the error of [open] is passed on and
    nothing is written. *)
Lemma create_import_control_xml_cannot_open
    (xml_output src_folder src_repo tgt_folder tgt_repo dtd : string)
    (fs : filesystem) :
  can_open fs xml_output = false →
  create_import_control_xml xml_output src_folder src_repo tgt_folder tgt_repo dtd fs
  = Raise (OSError xml_output).
Proof.
  intros Hopen. unfold create_import_control_xml.
  rewrite format_template. cbn [mbind result_bind]. unfold open_w. by rewrite Hopen.
Qed.

(** ** [cmd_execute] *)

(** A run whose output is plain text in lines ended by carriage return
    and line feed: the lines come back, and an empty string after the
    last line end. *)
Example cmd_execute_plain_lines :
  cmd_execute
    (λ _, Ok (Bytes.of_string "A|B" ++ [Byte.x0d; Byte.x0a]
              ++ Bytes.of_string "connect completed successfully."
              ++ [Byte.x0d; Byte.x0a],
              Bytes.of_string "warning"))
    ["pmrep"; "connect"]
  = Ok ["A|B"; "connect completed successfully."; ""].
Proof. by vm_compute. Qed.

(** C9, checked on a run.  [str] of the captured bytes is their [repr],
    and [strip] removes every leading and trailing letter b and apostrophe,
    not only the b and the quotes of the [repr]: an output that begins with
    the letter b loses it, where splitting the output at carriage return
    and line feed keeps it.  A tab comes back as a backslash and the
    letter t. *)
Theorem cmd_execute_strips_leading_b :
  cmd_execute
    (λ _, Ok (Bytes.of_string "backup completed successfully."
              ++ [Byte.x0d; Byte.x0a], []))
    ["pmrep"; "backup"]
  = Ok ["ackup completed successfully."; ""]
  ∧ Str.split
      ("backup completed successfully." +:+ String "013" (String "010" ""))
      (String "013" (String "010" ""))
    = Ok ["backup completed successfully."; ""]
  ∧ cmd_execute
      (λ _, Ok (Bytes.of_string "A" ++ [Byte.x09] ++ Bytes.of_string "B"
                ++ [Byte.x0d; Byte.x0a], []))
      ["pmrep"; "list"]
    = Ok ["A\tB"; ""].
Proof. repeat split; by vm_compute. Qed.

(** *** Output for which [cmd_execute] returns the lines *)

Lemma concat_empty_cons (x : string) (xs : list string) :
  String.concat "" (x :: xs) = x +:+ String.concat "" xs.
Proof. destruct xs; simpl; [by rewrite append_empty_r | done]. Qed.

(** The escaped form of the bytes of [s], between apostrophes. *)
Lemma escaped_append (a b : string) :
  String.concat "" (map (Bytes.repr_byte "'") (Bytes.of_string (a +:+ b)))
  = String.concat "" (map (Bytes.repr_byte "'") (Bytes.of_string a))
    +:+ String.concat "" (map (Bytes.repr_byte "'") (Bytes.of_string b)).
Proof.
  induction a as [|x a IH]; [done|].
  change (Bytes.of_string (String x ?s)) with (byte_of_ascii x :: Bytes.of_string s).
  change (String x a +:+ b) with (String x (a +:+ b)).
  change (Bytes.of_string (String x ?s)) with (byte_of_ascii x :: Bytes.of_string s).
  cbn [map]. by rewrite !concat_empty_cons, IH, append_assoc.
Qed.

Lemma repr_plain_char (c : ascii) :
  plain_char c = true → Bytes.repr_byte "'" (byte_of_ascii c) = String c "".
Proof.
  destruct c as [[] [] [] [] [] [] [] []]; vm_compute; first [reflexivity | discriminate].
Qed.

Lemma escaped_plain (s : string) :
  plain s = true →
  String.concat "" (map (Bytes.repr_byte "'") (Bytes.of_string s)) = s.
Proof.
  unfold plain. induction s as [|c s IH]; [done|].
  change (Bytes.of_string (String c s)) with (byte_of_ascii c :: Bytes.of_string s).
  cbn [list_ascii_of_string forallb map].
  intros [Hc Hs]%andb_true_iff.
  by rewrite concat_empty_cons, repr_plain_char, IH.
Qed.

Lemma escaped_join (lines : list string) :
  Forall (λ line, plain line = true) lines →
  String.concat "" (map (Bytes.repr_byte "'") (Bytes.of_string (Str.join crlf lines)))
  = Str.join "\r\n" lines.
Proof.
  induction 1 as [|l ls Hl Hls IH]; [done|].
  destruct ls as [|m ls]; [by apply escaped_plain|].
  rewrite !join_cons by done.
  rewrite !escaped_append, IH, escaped_plain by done. reflexivity.
Qed.

Lemma has_byte_of_string (c : ascii) (s : string) :
  Bytes.has_byte c (Bytes.of_string s) = Str.mem_char c s.
Proof.
  induction s as [|x s IH]; [done|].
  change (Bytes.of_string (String x s)) with (byte_of_ascii x :: Bytes.of_string s).
  unfold Bytes.has_byte in *. cbn [existsb Str.mem_char].
  by rewrite IH, ascii_of_byte_of_ascii, Ascii.eqb_sym.
Qed.

Lemma plain_mem_char (c : ascii) (s : string) :
  plain_char c = false → plain s = true → Str.mem_char c s = false.
Proof.
  intros Hc. unfold plain. induction s as [|x s IH]; [done|].
  cbn [list_ascii_of_string forallb Str.mem_char].
  intros [Hx Hs]%andb_true_iff. rewrite IH by done.
  destruct (Ascii.eqb_spec c x) as [->|]; [congruence|done].
Qed.

Lemma mem_char_join (c : ascii) (sep : string) (lines : list string) :
  Str.mem_char c sep = false →
  Forall (λ line, Str.mem_char c line = false) lines →
  Str.mem_char c (Str.join sep lines) = false.
Proof.
  intros Hsep. induction 1 as [|l ls Hl Hls IH]; [done|].
  destruct ls as [|m ls]; [done|].
  rewrite join_cons by done. by rewrite !mem_char_append, Hl, Hsep, IH.
Qed.

Lemma rstrip_by_append (drop : ascii → bool) (a b : string) :
  b ≠ "" → Str.rstrip_by drop b = b → Str.rstrip_by drop (a +:+ b) = a +:+ b.
Proof.
  intros Hne Hb. induction a as [|x a IH]; [done|].
  simpl. rewrite IH. destruct (a +:+ b) eqn:Hab; [|done].
  destruct a; [by destruct Hne | discriminate].
Qed.

(** The two ends of a joined text, for a separator that [strip] leaves. *)
Lemma lstrip_by_join (drop : ascii → bool) (sep : string) (lines : list string) :
  sep ≠ "" → Str.lstrip_by drop sep = sep →
  (∀ line, head lines = Some line → Str.lstrip_by drop line = line) →
  Str.lstrip_by drop (Str.join sep lines) = Str.join sep lines.
Proof.
  intros Hne Hsep Hfirst. destruct lines as [|l ls]; [done|].
  specialize (Hfirst l eq_refl).
  destruct ls as [|m ls]; [done|]. rewrite join_cons by done.
  destruct l as [|c l].
  - destruct sep as [|z sep]; [done|]. simpl in *.
    destruct (drop z); [|done].
    apply (f_equal String.length) in Hsep. simpl in Hsep.
    assert (∀ s, String.length (Str.lstrip_by drop s) ≤ String.length s) as Hle.
    { induction s as [|y s IHs]; simpl; [lia|]. destruct (drop y); simpl; lia. }
    specialize (Hle sep). lia.
  - simpl in *. destruct (drop c); [|done].
    apply (f_equal String.length) in Hfirst. simpl in Hfirst.
    assert (∀ s, String.length (Str.lstrip_by drop s) ≤ String.length s) as Hle.
    { induction s as [|y s IHs]; simpl; [lia|]. destruct (drop y); simpl; lia. }
    specialize (Hle l). lia.
Qed.

Lemma rstrip_by_join (drop : ascii → bool) (sep : string) (lines : list string) :
  sep ≠ "" → Str.rstrip_by drop sep = sep →
  (∀ line, last lines = Some line → Str.rstrip_by drop line = line) →
  Str.rstrip_by drop (Str.join sep lines) = Str.join sep lines.
Proof.
  intros Hne Hsep. induction lines as [|l ls IH]; [done|]. intros Hlast.
  destruct ls as [|m ls]; [by apply Hlast|].
  rewrite join_cons by done.
  assert (Str.rstrip_by drop (Str.join sep (m :: ls)) = Str.join sep (m :: ls)) as Hrest.
  { apply IH. intros line Hline. apply Hlast. by rewrite last_cons_cons. }
  apply rstrip_by_append.
  - destruct sep; [done|discriminate].
  - destruct (Str.join sep (m :: ls)) eqn:Hj.
    + by rewrite append_empty_r.
    + by apply rstrip_by_append.
Qed.

Lemma lstrip_by_length (drop : ascii → bool) (s : string) :
  String.length (Str.lstrip_by drop s) ≤ String.length s.
Proof.
  induction s as [|c s IH]; simpl; [lia|]. destruct (drop c); simpl; lia.
Qed.

Lemma lstrip_by_first (drop : ascii → bool) (c : ascii) (s : string) :
  Str.lstrip_by drop (String c s) = String c s → drop c = false.
Proof.
  simpl. destruct (drop c); [|done]. intros Heq.
  pose proof (lstrip_by_length drop s) as Hle. rewrite Heq in Hle. simpl in Hle. lia.
Qed.

Lemma drop_b_quote (c : ascii) :
  Str.mem_char c "b'" = false ↔ c ≠ "b"%char ∧ c ≠ "'"%char.
Proof.
  cbn [Str.mem_char]. rewrite orb_false_r, orb_false_iff.
  by rewrite !Ascii.eqb_neq.
Qed.

(** Removing the b and the apostrophes that [repr] puts around a text
    which [strip] would leave alone. *)
Lemma strip_wrapped (drop : ascii → bool) (b q : ascii) (text : string) :
  drop b = true → drop q = true →
  Str.lstrip_by drop text = text → Str.rstrip_by drop text = text →
  Str.rstrip_by drop
    (Str.lstrip_by drop (String b (String q (text +:+ String q "")))) = text.
Proof.
  intros Hb Hq Hl Hr. cbn [Str.lstrip_by]. rewrite Hb, Hq.
  destruct text as [|c t]; [simpl; by rewrite Hq|].
  apply lstrip_by_first in Hl as Hc.
  change (String c t +:+ ?s) with (String c (t +:+ s)).
  cbn [Str.lstrip_by]. rewrite Hc.
  change (String c (t +:+ ?s)) with (String c t +:+ s).
  by rewrite rstrip_by_dropped.
Qed.

Lemma strip_chars_repr (text : string) :
  Str.lstrip_by (λ c, Str.mem_char c "b'") text = text →
  Str.rstrip_by (λ c, Str.mem_char c "b'") text = text →
  Str.strip_chars "b'" ("b" +:+ String "'" text +:+ String "'" "") = text.
Proof. intros Hl Hr. by apply strip_wrapped. Qed.

(** X11. For output made of plain lines separated by carriage return and line
    feed, whose first line does not begin and whose last line does not end
    with the letter b, [cmd_execute] returns the lines, which is also
    what splitting the output at carriage return and line feed gives. *)
Lemma cmd_execute_plain_output (lines : list string) (err : Bytes.bytes)
    (command : list string) :
  lines ≠ [] →
  Forall (λ line, plain line = true) lines →
  (∀ line, head lines = Some line → Str.startswith "b" line = false) →
  (∀ line, last lines = Some line → ∀ t, line ≠ t +:+ "b") →
  cmd_execute (λ _, Ok (Bytes.of_string (Str.join crlf lines), err)) command
  = Ok lines
  ∧ Str.split (Str.join crlf lines) crlf = Ok lines.
Proof.
  intros Hne Hplain Hfirst Hlast.
  assert (∀ c, plain_char c = false →
            Forall (λ line, Str.mem_char c line = false) lines) as Hnone.
  { intros c Hc. eapply Forall_impl; [exact Hplain|].
    intros line. by apply plain_mem_char. }
  split.
  - unfold cmd_execute. cbn [mbind result_bind fst]. unfold Bytes.str.
    rewrite has_byte_of_string, mem_char_join
      by first [reflexivity | by apply Hnone].
    cbn [andb]. rewrite escaped_join by done.
    rewrite strip_chars_repr.
    + by apply (split_of_join _ _ "\" "r\n"); [| |apply Hnone].
    + apply lstrip_by_join; [done|done|].
      intros line Hline. apply lstrip_by_id. intros c t ->.
      apply drop_b_quote. split; intros ->.
      * specialize (Hfirst _ Hline).
        assert (Str.startswith "b" (String "b" t) = true) as Hb
          by exact (startswith_refl_append "b" t).
        congruence.
      * pose proof (Hnone "'"%char eq_refl) as Hq.
        rewrite Forall_forall in Hq.
        specialize (Hq _ (head_Some_elem_of _ _ Hline)).
        by destruct (proj1 (mem_char_false "'" _) Hq "" t).
    + apply rstrip_by_join; [done|done|].
      intros line Hline. apply rstrip_by_id. intros t c ->.
      apply drop_b_quote. split; intros ->.
      * by destruct (Hlast _ Hline t).
      * pose proof (Hnone "'"%char eq_refl) as Hq.
        rewrite Forall_forall in Hq.
        specialize (Hq _ (last_Some_elem_of _ _ Hline)).
        by destruct (proj1 (mem_char_false "'" _) Hq t "").
  - by apply (split_of_join _ _ "013" (String "010" "")); [| |apply Hnone].
Qed.

Lemma cmd_execute_plain_output_witness :
  ["A|B"; "done"; ""] ≠ []
  ∧ Forall (λ line, plain line = true) ["A|B"; "done"; ""]
  ∧ (∀ line, head ["A|B"; "done"; ""] = Some line → Str.startswith "b" line = false)
  ∧ (∀ line, last ["A|B"; "done"; ""] = Some line → ∀ t, line ≠ t +:+ "b")
  ∧ cmd_execute
      (λ _, Ok (Bytes.of_string (Str.join crlf ["A|B"; "done"; ""]), [])) ["pmrep"]
    = Ok ["A|B"; "done"; ""]
  ∧ Str.split (Str.join crlf ["A|B"; "done"; ""]) crlf = Ok ["A|B"; "done"; ""].
Proof.
  assert (["A|B"; "done"; ""] ≠ []) as Hne by done.
  assert (Forall (λ line, plain line = true) ["A|B"; "done"; ""]) as Hplain
    by (repeat constructor).
  assert (∀ line, head ["A|B"; "done"; ""] = Some line
                  → Str.startswith "b" line = false) as Hfirst.
  { intros line [= <-]. reflexivity. }
  assert (∀ line, last ["A|B"; "done"; ""] = Some line → ∀ t, line ≠ t +:+ "b")
    as Hlast.
  { intros line [= <-] [|c t]; discriminate. }
  repeat (split; [assumption|]).
  exact (cmd_execute_plain_output _ [] ["pmrep"] Hne Hplain Hfirst Hlast).
Defined.

(** * Further properties of the module *)

(** ** [cmd_prepare] *)

(** X1. [cmd_prepare] returns a token list exactly when every key of the
    configuration is in one of the two option lists; otherwise it raises. *)
Theorem cmd_prepare_ok_iff (params : dict) (opts_args opts_flags : list string) :
  (∃ command, cmd_prepare params opts_args opts_flags = Ok command)
  ↔ ∀ key, key ∈ keys params → key ∈ opts_args ∨ key ∈ opts_flags.
Proof.
  split; [|apply cmd_prepare_supported].
  induction params as [|[k v] rest IH]; intros [command Hok] key Hkey.
  - by apply elem_of_nil in Hkey.
  - rewrite cmd_prepare_cons in Hok.
    destruct (cmd_prepare [(k, v)] opts_args opts_flags) as [a|e] eqn:Hone;
      [|discriminate].
    destruct (cmd_prepare rest opts_args opts_flags) as [b|e] eqn:Hrest;
      [|discriminate].
    unfold keys in Hkey. cbn [fmap list_fmap fst] in Hkey.
    apply elem_of_cons in Hkey as [->|Hkey]; [|apply IH; [by exists b|done]].
    destruct (decide (k ∈ opts_args)); [by left|].
    destruct (decide (k ∈ opts_flags)); [by right|].
    by rewrite cmd_prepare_one_unsupported in Hone.
Qed.

(** X2. [cmd_prepare] invents no token: the list has at most two tokens
    per item, and each token is a key of the configuration with a dash
    before it, or the value of an item whose key is an argument option. *)
Theorem cmd_prepare_tokens_from_config (params : dict)
    (opts_args opts_flags : list string) (command : list pyval) :
  cmd_prepare params opts_args opts_flags = Ok command →
  length command ≤ 2 * length params
  ∧ ∀ token, token ∈ command →
      (∃ key, key ∈ keys params ∧ token = PStr ("-" +:+ key))
      ∨ (∃ key, (key, token) ∈ params ∧ key ∈ opts_args).
Proof.
  revert command. induction params as [|[k v] rest IH]; intros command Hok.
  - injection Hok as <-. split; [simpl; lia|]. by intros token ?%elem_of_nil.
  - rewrite cmd_prepare_cons in Hok.
    destruct (cmd_prepare [(k, v)] opts_args opts_flags) as [a|e] eqn:Hone;
      [|discriminate].
    destruct (cmd_prepare rest opts_args opts_flags) as [b|e] eqn:Hrest;
      [|discriminate].
    injection Hok as <-. destruct (IH b eq_refl) as [Hlen Hfrom].
    assert (length a ≤ 2
            ∧ ∀ token, token ∈ a →
                token = PStr ("-" +:+ k) ∨ (token = v ∧ k ∈ opts_args)) as [Hla Ha].
    { destruct (decide (k ∈ opts_args)) as [Hargs|Hargs].
      - rewrite cmd_prepare_one_argument in Hone by done. injection Hone as <-.
        split; [simpl; lia|]. intros token. rewrite !elem_of_cons, elem_of_nil.
        intros [->|[->|[]]]; [by left|by right].
      - destruct (decide (k ∈ opts_flags)) as [Hflags|Hflags].
        + rewrite cmd_prepare_one_flag in Hone by done. injection Hone as <-.
          destruct (eq_True v); split; simpl; try lia.
          * intros token ->%list_elem_of_singleton. by left.
          * by intros token ?%elem_of_nil.
        + by rewrite cmd_prepare_one_unsupported in Hone. }
    split; [rewrite length_app; simpl; lia|].
    intros token [Hin|Hin]%elem_of_app.
    + destruct (Ha token Hin) as [->|[-> Hargs]].
      * left. exists k. split; [|done]. unfold keys. simpl. by left.
      * right. exists k. split; [by left|done].
    + destruct (Hfrom token Hin) as [(key & Hkey & ->)|(key & Hkey & Hargs)].
      * left. exists key. split; [|done]. unfold keys in *. simpl. by right.
      * right. exists key. split; [by right|done].
Qed.

Lemma cmd_prepare_tokens_from_config_witness :
  cmd_prepare [("r", PStr "repo"); ("v", PBool true); ("q", PBool false)]
    ["r"] ["v"; "q"]
  = Ok [PStr "-r"; PStr "repo"; PStr "-v"]
  ∧ length [PStr "-r"; PStr "repo"; PStr "-v"]
    ≤ 2 * length [("r", PStr "repo"); ("v", PBool true); ("q", PBool false)]
  ∧ ∀ token, token ∈ [PStr "-r"; PStr "repo"; PStr "-v"] →
      (∃ key, key ∈ keys [("r", PStr "repo"); ("v", PBool true); ("q", PBool false)]
              ∧ token = PStr ("-" +:+ key))
      ∨ (∃ key, (key, token) ∈ [("r", PStr "repo"); ("v", PBool true);
                                ("q", PBool false)]
                ∧ key ∈ ["r"]).
Proof.
  assert (cmd_prepare [("r", PStr "repo"); ("v", PBool true); ("q", PBool false)]
            ["r"] ["v"; "q"]
          = Ok [PStr "-r"; PStr "repo"; PStr "-v"]) as Hok by (by vm_compute).
  split; [exact Hok|].
  exact (cmd_prepare_tokens_from_config _ _ _ _ Hok).
Defined.

(** X3. The two option lists are used as sets: listing the options in
    another order, or an option twice, changes nothing. *)
Theorem cmd_prepare_option_lists_as_sets (params : dict)
    (opts_args opts_flags opts_args' opts_flags' : list string) :
  (∀ key, key ∈ opts_args ↔ key ∈ opts_args') →
  (∀ key, key ∈ opts_flags ↔ key ∈ opts_flags') →
  cmd_prepare params opts_args opts_flags = cmd_prepare params opts_args' opts_flags'.
Proof.
  intros Hargs Hflags.
  assert (∀ key, in_list key opts_args = in_list key opts_args') as Ha.
  { intros key. unfold in_list. apply bool_decide_ext, Hargs. }
  assert (∀ key, in_list key opts_flags = in_list key opts_flags') as Hf.
  { intros key. unfold in_list. apply bool_decide_ext, Hflags. }
  assert (∀ key, in_list key (opts_args ++ opts_flags)
                 = in_list key (opts_args' ++ opts_flags')) as Hboth.
  { intros key. unfold in_list. apply bool_decide_ext.
    rewrite !elem_of_app, Hargs, Hflags. done. }
  unfold cmd_prepare. generalize (@nil pyval).
  induction params as [|[k v] rest IH]; intros command; [done|].
  cbn [cmd_prepare_loop]. rewrite Ha, Hf, Hboth.
  repeat case_match; try done; apply IH.
Qed.

Lemma cmd_prepare_option_lists_as_sets_witness :
  (∀ key, key ∈ ["r"; "f"] ↔ key ∈ ["f"; "r"; "f"])
  ∧ (∀ key, key ∈ ["v"] ↔ key ∈ ["v"; "v"])
  ∧ cmd_prepare [("f", PStr "dev"); ("v", PBool true)] ["r"; "f"] ["v"]
    = cmd_prepare [("f", PStr "dev"); ("v", PBool true)] ["f"; "r"; "f"] ["v"; "v"].
Proof.
  assert (∀ key, key ∈ ["r"; "f"] ↔ key ∈ ["f"; "r"; "f"]) as Hargs.
  { intros key. rewrite !elem_of_cons, elem_of_nil. tauto. }
  assert (∀ key, key ∈ ["v"] ↔ key ∈ ["v"; "v"]) as Hflags.
  { intros key. rewrite !elem_of_cons, elem_of_nil. tauto. }
  split; [exact Hargs|]. split; [exact Hflags|].
  exact (cmd_prepare_option_lists_as_sets _ _ _ _ _ Hargs Hflags).
Defined.

(** X4. A configuration made of two parts gives the tokens of the first
    part followed by those of the second; an error of the first part comes
    first, and an error of the second part discards the tokens of the
    first. *)
Theorem cmd_prepare_concat (pre post : dict) (opts_args opts_flags : list string) :
  (∀ a b,
     cmd_prepare pre opts_args opts_flags = Ok a →
     cmd_prepare post opts_args opts_flags = Ok b →
     cmd_prepare (pre ++ post) opts_args opts_flags = Ok (a ++ b))
  ∧ (∀ e,
       cmd_prepare pre opts_args opts_flags = Raise e →
       cmd_prepare (pre ++ post) opts_args opts_flags = Raise e)
  ∧ (∀ a e,
       cmd_prepare pre opts_args opts_flags = Ok a →
       cmd_prepare post opts_args opts_flags = Raise e →
       cmd_prepare (pre ++ post) opts_args opts_flags = Raise e).
Proof.
  repeat split.
  - intros a b Ha Hb. by rewrite (cmd_prepare_app pre), Ha, Hb.
  - intros e He. by rewrite (cmd_prepare_app pre), He.
  - intros a e Ha He. by rewrite (cmd_prepare_app pre), Ha, He.
Qed.

(** ** [cmd_status] *)

Lemma cmd_status_ok_iff (command command_output : list string) (stdout : string) :
  (cmd_status command command_output stdout).2 = Ok ()
  ↔ existsb (λ line, Str.contains "completed successfully" line) command_output = true.
Proof.
  unfold cmd_status. destruct (existsb _ command_output); cbn [negb snd]; done.
Qed.

(** X5. The check passes on two outputs put one after the other exactly
    when it passes on one of them: lines that are added never turn a
    success into a failure. *)
Theorem cmd_status_concat (command output1 output2 : list string) (stdout : string) :
  (cmd_status command (output1 ++ output2) stdout).2 = Ok ()
  ↔ (cmd_status command output1 stdout).2 = Ok ()
    ∨ (cmd_status command output2 stdout).2 = Ok ().
Proof. by rewrite !cmd_status_ok_iff, existsb_app, orb_true_iff. Qed.

(** ** [format_output] *)

(** Row by row, the result comes from the lines that pass the guard. *)
Lemma format_output_Forall2 (lines : list string) (sep : string) (rows : list row) :
  format_output lines sep = Ok rows →
  Forall2 (λ item r, trimmed_row sep item = Ok r) (List.filter kept lines) rows.
Proof.
  revert rows. induction lines as [|item rest IH]; intros rows Hok.
  - injection Hok as <-. constructor.
  - rewrite format_output_cons in Hok. cbn [List.filter].
    destruct (kept item); [|by apply IH].
    destruct (trimmed_row sep item) as [r|e] eqn:Hr; [|discriminate].
    destruct (format_output rest sep) as [rs|e]; [|discriminate].
    injection Hok as <-. constructor; [done|by apply IH].
Qed.

Lemma format_output_ok_length (lines : list string) (sep : string) :
  sep ≠ "" →
  ∃ rows, format_output lines sep = Ok rows
          ∧ length rows = length (List.filter kept lines).
Proof.
  intros Hsep. induction lines as [|item rest (rows & Hrows & Hlen)].
  - by exists [].
  - rewrite format_output_cons, Hrows. cbn [List.filter].
    destruct (kept item); [|by exists rows].
    destruct (trimmed_row_ok sep item Hsep) as [r ->].
    exists (r :: rows). split; [done|]. simpl. by rewrite Hlen.
Qed.

Lemma filter_length_le {A} (f : A → bool) (l : list A) :
  length (List.filter f l) ≤ length l.
Proof. induction l as [|x l IH]; simpl; [lia|]. destruct (f x); simpl; lia. Qed.

Lemma filter_length_lt {A} (f : A → bool) (l : list A) (x : A) :
  x ∈ l → f x = false → length (List.filter f l) < length l.
Proof.
  intros Hin Hx. induction l as [|y l IH]; [by apply elem_of_nil in Hin|].
  apply elem_of_cons in Hin as [<-|Hin]; simpl.
  - rewrite Hx. pose proof (filter_length_le f l). lia.
  - specialize (IH Hin). destruct (f y); simpl; lia.
Qed.

(** X6. After a check that passed, formatting drops at least the line
    that made it pass: there are fewer rows than output lines. *)
Theorem format_output_drops_success_lines (command lines : list string)
    (stdout field_separator : string) :
  (cmd_status command lines stdout).2 = Ok () →
  field_separator ≠ "" →
  ∃ rows, format_output lines field_separator = Ok rows
          ∧ length rows < length lines.
Proof.
  intros Hok Hsep.
  destruct (format_output_ok_length lines field_separator Hsep) as (rows & Hrows & Hlen).
  exists rows. split; [done|]. rewrite Hlen.
  apply cmd_status_ok_iff, existsb_contains in Hok as (line & Hin & Hocc).
  apply (filter_length_lt _ _ line); [done|].
  destruct (kept line) eqn:Hkept; [|done].
  apply kept_spec in Hkept as [_ Hnone].
  destruct (Hnone "completed successfully"); [|done].
  unfold ignore_lines. rewrite !elem_of_cons. tauto.
Qed.

Lemma format_output_drops_success_lines_witness :
  (cmd_status ["pmrep"; "listobjects"]
     ["A|B"; "listobjects completed successfully."] "").2 = Ok ()
  ∧ "|" ≠ ""
  ∧ ∃ rows, format_output ["A|B"; "listobjects completed successfully."] "|" = Ok rows
            ∧ length rows < length ["A|B"; "listobjects completed successfully."].
Proof.
  assert ((cmd_status ["pmrep"; "listobjects"]
             ["A|B"; "listobjects completed successfully."] "").2 = Ok ()) as Hok
    by (by vm_compute).
  assert ("|" ≠ "") as Hsep by discriminate.
  split; [exact Hok|]. split; [exact Hsep|].
  exact (format_output_drops_success_lines _ _ _ _ Hok Hsep).
Defined.

(** X9. With the empty separator [format_output] raises [ValueError] as
    soon as one line passes the guard, and returns the empty list when no
    line does. *)
Theorem format_output_empty_separator_edge (lines : list string) :
  format_output lines ""
  = if existsb kept lines then Raise (ValueError "empty separator") else Ok [].
Proof.
  induction lines as [|item rest IH]; [done|].
  rewrite format_output_cons. cbn [existsb].
  destruct (kept item); [|exact IH].
  by rewrite trimmed_row_empty_separator.
Qed.

(** X10. Formatting two outputs put one after the other gives the rows of
    the first followed by the rows of the second. *)
Theorem format_output_concat (lines1 lines2 : list string) (field_separator : string) :
  field_separator ≠ "" →
  ∃ rows1 rows2,
    format_output lines1 field_separator = Ok rows1
    ∧ format_output lines2 field_separator = Ok rows2
    ∧ format_output (lines1 ++ lines2) field_separator = Ok (rows1 ++ rows2).
Proof.
  intros Hsep.
  destruct (format_output_ok_length lines1 field_separator Hsep) as (rows1 & H1 & _).
  destruct (format_output_ok_length lines2 field_separator Hsep) as (rows2 & H2 & _).
  exists rows1, rows2. by rewrite format_output_app, H1, H2.
Qed.

Lemma format_output_concat_witness :
  "|" ≠ ""
  ∧ ∃ rows1 rows2,
      format_output ["A|B"; "Invoked at 10:00"] "|" = Ok rows1
      ∧ format_output [" x "; ""] "|" = Ok rows2
      ∧ format_output (["A|B"; "Invoked at 10:00"] ++ [" x "; ""]) "|"
        = Ok (rows1 ++ rows2).
Proof.
  assert ("|" ≠ "") as Hsep by discriminate.
  split; [exact Hsep|].
  exact (format_output_concat ["A|B"; "Invoked at 10:00"] [" x "; ""] "|" Hsep).
Defined.

Lemma append_inj_length (a b x y : string) :
  a +:+ x = b +:+ y → String.length a = String.length b → a = b ∧ x = y.
Proof.
  revert b. induction a as [|c a IH]; intros [|d b]; simpl; try done.
  intros [= -> Heq] [= Hlen]. destruct (IH b Heq Hlen) as [-> ->]. done.
Qed.

(** No field that the scan cuts holds the separator, as long as no
    occurrence of the separator begins inside the field read so far. *)
Lemma split_scan_separator_free (sep : string) (n : nat) :
  sep ≠ "" →
  ∀ s cur, String.length s ≤ n →
    (∀ a b, cur +:+ s = a +:+ sep +:+ b → String.length cur ≤ String.length a) →
    Forall (λ f, ¬ Str.occurs_in sep f) (Str.split_scan sep s 0 cur).
Proof.
  intros Hsep.
  assert (0 < String.length sep) as Hpos by (destruct sep; [done|simpl; lia]).
  assert (∀ s cur,
    (∀ a b, cur +:+ s = a +:+ sep +:+ b → String.length cur ≤ String.length a) →
    ¬ Str.occurs_in sep cur) as Hcur.
  { intros s cur Hinv (a & b & ->).
    specialize (Hinv a (b +:+ s)). rewrite !append_assoc in Hinv.
    specialize (Hinv eq_refl). rewrite !length_append in Hinv. lia. }
  induction n as [|n IH]; intros s cur Hlen Hinv.
  - destruct s; [|simpl in Hlen; lia]. simpl. repeat constructor. by eapply Hcur.
  - destruct s as [|c s]; [simpl; repeat constructor; by eapply Hcur|].
    cbn [Str.split_scan].
    destruct (Str.startswith sep (String c s)) eqn:Hstart.
    + constructor; [by eapply Hcur|].
      apply startswith_spec in Hstart as [rest Hrest].
      destruct sep as [|x sep']; [done|]. simpl in Hrest.
      injection Hrest as -> ->.
      replace (String.length (String x sep') - 1) with (String.length sep')
        by (simpl; lia).
      rewrite split_scan_skip. apply IH.
      * simpl in Hlen. rewrite length_append in Hlen. lia.
      * intros a b _. simpl. lia.
    + apply IH; [simpl in Hlen; lia|].
      intros a b Heq. rewrite append_assoc in Heq.
      change (String c "" +:+ s) with (String c s) in Heq.
      pose proof (Hinv a b Heq) as Hle. rewrite length_append. simpl.
      destruct (decide (String.length cur = String.length a)) as [Hsame|]; [|lia].
      destruct (append_inj_length _ _ _ _ Heq Hsame) as [_ Hs].
      assert (Str.startswith sep (String c s) = true); [|congruence].
      apply startswith_spec. by exists b.
Qed.

Lemma split_separator_free (s sep : string) (fields : list string) :
  Str.split s sep = Ok fields →
  fields ≠ [] ∧ Forall (λ f, ¬ Str.occurs_in sep f) fields.
Proof.
  unfold Str.split. destruct sep as [|a sep'] eqn:Hsep; [done|].
  intros [= <-]. split; [apply split_scan_nonempty|].
  apply (split_scan_separator_free _ (String.length s)); [done|done|].
  intros x y _. simpl. lia.
Qed.

Lemma strip_occurs (sub s : string) :
  Str.occurs_in sub (Str.strip s) → Str.occurs_in sub s.
Proof.
  intros Hocc. destruct (strip_spec s) as (left & right & Heq & _).
  rewrite Heq. by apply occurs_in_append_r, occurs_in_append_l.
Qed.

(** X7. Every row gives back the trimmed line it was made from: a string
    is the trimmed line, and the fields of a row, joined by the separator,
    are the trimmed line. *)
Theorem format_output_rows_give_lines (lines : list string)
    (field_separator : string) (rows : list row) :
  format_output lines field_separator = Ok rows →
  Forall2 (λ item r,
      match r with
      | Scalar line => line = Str.strip item
      | Fields fields => Str.join field_separator fields = Str.strip item
      end)
    (List.filter kept lines) rows.
Proof.
  intros Hok. eapply Forall2_impl; [by apply format_output_Forall2|].
  intros item r. unfold trimmed_row.
  destruct (Str.contains field_separator item).
  - destruct (Str.split (Str.strip item) field_separator) as [fields|e] eqn:Hsplit;
      [|done].
    intros [= <-]. by apply split_join.
  - by intros [= <-].
Qed.

Lemma format_output_rows_give_lines_witness :
  format_output ["Copyright 2016"; " A|B||C "; "  x  "] "|"
  = Ok [Fields ["A"; "B"; ""; "C"]; Scalar "x"]
  ∧ Forall2 (λ item r,
        match r with
        | Scalar line => line = Str.strip item
        | Fields fields => Str.join "|" fields = Str.strip item
        end)
      (List.filter kept ["Copyright 2016"; " A|B||C "; "  x  "])
      [Fields ["A"; "B"; ""; "C"]; Scalar "x"].
Proof.
  assert (format_output ["Copyright 2016"; " A|B||C "; "  x  "] "|"
          = Ok [Fields ["A"; "B"; ""; "C"]; Scalar "x"]) as Hok by (by vm_compute).
  split; [exact Hok|].
  exact (format_output_rows_give_lines _ _ _ Hok).
Defined.

(** X8. The separator is used up by the split: a row of fields is never
    the empty list and none of its fields holds the separator, and a row
    that is a string does not hold the separator. *)
Theorem format_output_rows_separator_free (lines : list string)
    (field_separator : string) (rows : list row) :
  format_output lines field_separator = Ok rows →
  Forall (λ r,
      match r with
      | Scalar line => ¬ Str.occurs_in field_separator line
      | Fields fields =>
          fields ≠ [] ∧ Forall (λ f, ¬ Str.occurs_in field_separator f) fields
      end)
    rows.
Proof.
  intros Hok%format_output_Forall2.
  induction Hok as [|item r items rows Hr _ IH]; constructor; [|exact IH].
  unfold trimmed_row in Hr.
  destruct (Str.contains field_separator item) eqn:Hocc.
  - destruct (Str.split (Str.strip item) field_separator) as [fields|e] eqn:Hsplit;
      [|done].
    injection Hr as <-. by apply (split_separator_free (Str.strip item)).
  - injection Hr as <-. intros Hin%strip_occurs%contains_spec. congruence.
Qed.

Lemma format_output_rows_separator_free_witness :
  format_output [" A, B,, C "; "x,y"; "z"] ", " = Ok [Fields ["A"; "B,"; "C"]; Scalar "x,y"; Scalar "z"]
  ∧ Forall (λ r,
        match r with
        | Scalar line => ¬ Str.occurs_in ", " line
        | Fields fields => fields ≠ [] ∧ Forall (λ f, ¬ Str.occurs_in ", " f) fields
        end)
      [Fields ["A"; "B,"; "C"]; Scalar "x,y"; Scalar "z"].
Proof.
  assert (format_output [" A, B,, C "; "x,y"; "z"] ", "
          = Ok [Fields ["A"; "B,"; "C"]; Scalar "x,y"; Scalar "z"]) as Hok
    by (by vm_compute).
  split; [exact Hok|].
  exact (format_output_rows_separator_free _ _ _ Hok).
Defined.

(** ** [cmd_execute] *)

(** X12. When the process runs, [cmd_execute] returns at least one
    element, whatever was written to standard output and standard error:
    an empty output gives the list with the empty string, not the empty
    list.  When the process cannot be started its exception is passed on. *)
Theorem cmd_execute_never_empty (Popen_communicate : subprocess)
    (command : list string) :
  (∀ out err, Popen_communicate command = Ok (out, err) →
     ∃ first rest, cmd_execute Popen_communicate command = Ok (first :: rest))
  ∧ (∀ err, Popen_communicate command = Ok ([], err) →
       cmd_execute Popen_communicate command = Ok [""])
  ∧ (∀ e, Popen_communicate command = Raise e →
       cmd_execute Popen_communicate command = Raise e).
Proof.
  unfold cmd_execute. repeat split.
  - intros out err ->. cbn [mbind result_bind]. unfold Str.split.
    destruct (Str.split_scan "\r\n" (Str.strip_chars "b'" (Bytes.str (out, err).1)) 0 "")
      as [|first rest] eqn:Hscan; [by apply split_scan_nonempty in Hscan|].
    by exists first, rest.
  - by intros err ->.
  - by intros e ->.
Qed.

(** ** [create_import_control_xml] *)

Lemma create_import_control_xml_cannot_open_witness :
  let fs := {| files := {["ctl.xml" := "<old/>"]}; resolve := λ path, path; can_open := λ _, false |} in
  can_open fs "ctl.xml" = false
  ∧ create_import_control_xml "ctl.xml" "A" "dev" "B" "prod" "impcntl.dtd" fs
    = Raise (OSError "ctl.xml").
Proof.
  split; [reflexivity|].
  exact (create_import_control_xml_cannot_open
           "ctl.xml" "A" "dev" "B" "prod" "impcntl.dtd"
           {| files := {["ctl.xml" := "<old/>"]}; resolve := λ path, path; can_open := λ _, false |} eq_refl).
Defined.

(** What a call that can open its file leaves behind. *)
Lemma create_import_control_xml_ok
    (xml_output src_folder src_repo tgt_folder tgt_repo dtd : string)
    (fs : filesystem) :
  can_open fs xml_output = true →
  create_import_control_xml xml_output src_folder src_repo tgt_folder tgt_repo dtd fs
  = Ok {| files := <[resolve fs xml_output :=
                      control_file_text src_folder src_repo tgt_folder tgt_repo dtd]>
                     (files fs);
          resolve := resolve fs;
          can_open := can_open fs |}.
Proof.
  intros Hopen. unfold create_import_control_xml.
  rewrite format_template. cbn [mbind result_bind]. unfold open_w. rewrite Hopen.
  cbn [mbind result_bind]. unfold write. cbn [files resolve can_open].
  by rewrite alter_insert_eq.
Qed.

(** X14. The last call wins: writing a control file to a path that an
    earlier call wrote leaves the same files as the later call alone, so
    nothing of the earlier document is kept, and a call repeated with the
    same arguments changes nothing. *)
Theorem create_import_control_xml_overwrites
    (xml_output src_folder src_repo tgt_folder tgt_repo dtd : string)
    (src_folder' src_repo' tgt_folder' tgt_repo' dtd' : string)
    (fs : filesystem) :
  can_open fs xml_output = true →
  ∃ fs1,
    create_import_control_xml xml_output src_folder src_repo tgt_folder tgt_repo dtd fs
    = Ok fs1
    ∧ create_import_control_xml xml_output
        src_folder' src_repo' tgt_folder' tgt_repo' dtd' fs1
      = create_import_control_xml xml_output
          src_folder' src_repo' tgt_folder' tgt_repo' dtd' fs
    ∧ create_import_control_xml xml_output
        src_folder src_repo tgt_folder tgt_repo dtd fs1
      = Ok fs1.
Proof.
  intros Hopen. eexists. split; [by apply create_import_control_xml_ok|].
  rewrite !create_import_control_xml_ok by done. cbn [files resolve can_open].
  by rewrite !insert_insert_eq.
Qed.

Lemma create_import_control_xml_overwrites_witness :
  let fs := {| files := ∅; resolve := λ path, path; can_open := λ _, true |} in
  can_open fs "ctl.xml" = true
  ∧ ∃ fs1,
      create_import_control_xml "ctl.xml" "A" "dev" "B" "prod" "impcntl.dtd" fs = Ok fs1
      ∧ create_import_control_xml "ctl.xml" "C" "dev" "D" "test" "impcntl.dtd" fs1
        = create_import_control_xml "ctl.xml" "C" "dev" "D" "test" "impcntl.dtd" fs
      ∧ create_import_control_xml "ctl.xml" "A" "dev" "B" "prod" "impcntl.dtd" fs1
        = Ok fs1.
Proof.
  split; [reflexivity|].
  exact (create_import_control_xml_overwrites
           "ctl.xml" "A" "dev" "B" "prod" "impcntl.dtd"
           "C" "dev" "D" "test" "impcntl.dtd"
           {| files := ∅; resolve := λ path, path; can_open := λ _, true |} eq_refl).
Defined.

(** X15. Control files written to two paths that name different files do
    not disturb each other: the two calls give the same files in either
    order. *)
Theorem create_import_control_xml_commutes
    (path1 src_folder1 src_repo1 tgt_folder1 tgt_repo1 dtd1 : string)
    (path2 src_folder2 src_repo2 tgt_folder2 tgt_repo2 dtd2 : string)
    (fs : filesystem) :
  resolve fs path1 ≠ resolve fs path2 →
  can_open fs path1 = true → can_open fs path2 = true →
  (fs1 ← create_import_control_xml path1
            src_folder1 src_repo1 tgt_folder1 tgt_repo1 dtd1 fs;
   create_import_control_xml path2 src_folder2 src_repo2 tgt_folder2 tgt_repo2 dtd2 fs1)
  = (fs2 ← create_import_control_xml path2
              src_folder2 src_repo2 tgt_folder2 tgt_repo2 dtd2 fs;
     create_import_control_xml path1 src_folder1 src_repo1 tgt_folder1 tgt_repo1 dtd1 fs2).
Proof.
  intros Hne Hopen1 Hopen2.
  rewrite (create_import_control_xml_ok path1), (create_import_control_xml_ok path2)
    by done.
  cbn [mbind result_bind].
  rewrite (create_import_control_xml_ok path1), (create_import_control_xml_ok path2)
    by done.
  cbn [files resolve can_open]. by rewrite insert_insert_ne.
Qed.

Lemma create_import_control_xml_commutes_witness :
  let fs := {| files := ∅; resolve := λ path, path; can_open := λ _, true |} in
  resolve fs "a.xml" ≠ resolve fs "b.xml"
  ∧ can_open fs "a.xml" = true ∧ can_open fs "b.xml" = true
  ∧ (fs1 ← create_import_control_xml "a.xml" "A" "dev" "B" "prod" "impcntl.dtd" fs;
     create_import_control_xml "b.xml" "C" "dev" "D" "test" "impcntl.dtd" fs1)
    = (fs2 ← create_import_control_xml "b.xml" "C" "dev" "D" "test" "impcntl.dtd" fs;
       create_import_control_xml "a.xml" "A" "dev" "B" "prod" "impcntl.dtd" fs2).
Proof.
  assert ("a.xml" ≠ "b.xml") as Hne by discriminate.
  split; [exact Hne|]. split; [reflexivity|]. split; [reflexivity|].
  exact (create_import_control_xml_commutes
           "a.xml" "A" "dev" "B" "prod" "impcntl.dtd"
           "b.xml" "C" "dev" "D" "test" "impcntl.dtd"
           {| files := ∅; resolve := λ path, path; can_open := λ _, true |}
           Hne eq_refl eq_refl).
Defined.

(** X18. Two paths that name the same file share its content: after a
    call on one of them, a call on the other leaves the same files as that
    call alone, and the document of the later call is what is read back
    under either path. *)
Theorem create_import_control_xml_same_file
    (path1 src_folder1 src_repo1 tgt_folder1 tgt_repo1 dtd1 : string)
    (path2 src_folder2 src_repo2 tgt_folder2 tgt_repo2 dtd2 : string)
    (fs : filesystem) :
  resolve fs path1 = resolve fs path2 →
  can_open fs path1 = true → can_open fs path2 = true →
  ∃ fs1 fs2,
    create_import_control_xml path1 src_folder1 src_repo1 tgt_folder1 tgt_repo1 dtd1 fs
    = Ok fs1
    ∧ create_import_control_xml path2
        src_folder2 src_repo2 tgt_folder2 tgt_repo2 dtd2 fs1
      = Ok fs2
    ∧ create_import_control_xml path2
        src_folder2 src_repo2 tgt_folder2 tgt_repo2 dtd2 fs
      = Ok fs2
    ∧ read path1 fs2
      = Some (control_file_text src_folder2 src_repo2 tgt_folder2 tgt_repo2 dtd2)
    ∧ read path2 fs2
      = Some (control_file_text src_folder2 src_repo2 tgt_folder2 tgt_repo2 dtd2).
Proof.
  intros Hsame Hopen1 Hopen2. eexists _, _.
  split; [by apply create_import_control_xml_ok|].
  rewrite !(create_import_control_xml_ok path2) by done.
  cbn [files resolve can_open]. rewrite Hsame, insert_insert_eq.
  split; [reflexivity|]. split; [reflexivity|].
  unfold read. cbn [files resolve]. rewrite Hsame. by rewrite lookup_insert_eq.
Qed.

Lemma create_import_control_xml_same_file_witness :
  let fs := {| files := ∅;
               resolve := λ path,
                 match path with
                 | String "." (String "/" name) => name
                 | _ => path
                 end;
               can_open := λ _, true |} in
  resolve fs "ctl.xml" = resolve fs "./ctl.xml"
  ∧ can_open fs "ctl.xml" = true ∧ can_open fs "./ctl.xml" = true
  ∧ ∃ fs1 fs2,
      create_import_control_xml "ctl.xml" "A" "dev" "B" "prod" "impcntl.dtd" fs = Ok fs1
      ∧ create_import_control_xml "./ctl.xml" "C" "dev" "D" "test" "impcntl.dtd" fs1
        = Ok fs2
      ∧ create_import_control_xml "./ctl.xml" "C" "dev" "D" "test" "impcntl.dtd" fs
        = Ok fs2
      ∧ read "ctl.xml" fs2 = Some (control_file_text "C" "dev" "D" "test" "impcntl.dtd")
      ∧ read "./ctl.xml" fs2
        = Some (control_file_text "C" "dev" "D" "test" "impcntl.dtd").
Proof.
  split; [reflexivity|]. split; [reflexivity|]. split; [reflexivity|].
  exact (create_import_control_xml_same_file
           "ctl.xml" "A" "dev" "B" "prod" "impcntl.dtd"
           "./ctl.xml" "C" "dev" "D" "test" "impcntl.dtd"
           {| files := ∅;
              resolve := λ path,
                match path with
                | String "." (String "/" name) => name
                | _ => path
                end;
              can_open := λ _, true |}
           eq_refl eq_refl eq_refl).
Defined.

(** The document as the fixed pieces with the values between them. *)
Lemma control_file_text_pieces (src_folder src_repo tgt_folder tgt_repo dtd : string) :
  control_file_text src_folder src_repo tgt_folder tgt_repo dtd
  = before_dtd +:+ dtd +:+ String "034"
      (before_src_folder +:+ src_folder +:+ String "034"
        (before_src_repo +:+ src_repo +:+ String "034"
          (before_tgt_folder +:+ tgt_folder +:+ String "034"
            (before_tgt_repo +:+ tgt_repo +:+ String "034" after_tgt_repo)))).
Proof.
  unfold control_file_text, control_file_lines, Str.join, quoted.
  rewrite !append_assoc. vm_compute. reflexivity.
Qed.

Lemma append_inj_l (p x y : string) : p +:+ x = p +:+ y → x = y.
Proof. induction p as [|c p IH]; simpl; [done|]. intros [= H]. by apply IH. Qed.

(** Two texts that agree up to and after the first [q] agree part by part. *)
Lemma quote_split (q : ascii) (a a' r r' : string) :
  Str.mem_char q a = false → Str.mem_char q a' = false →
  a +:+ String q r = a' +:+ String q r' → a = a' ∧ r = r'.
Proof.
  revert a'. induction a as [|c a IH]; intros [|c' a']; simpl.
  - by intros _ _ [= ->].
  - intros _ [Hq _]%orb_false_iff [= -> _]. by rewrite Ascii.eqb_refl in Hq.
  - intros [Hq _]%orb_false_iff _ [= -> _]. by rewrite Ascii.eqb_refl in Hq.
  - intros [_ Ha]%orb_false_iff [_ Ha']%orb_false_iff [= -> Heq].
    by destruct (IH a' Ha Ha' Heq) as [-> ->].
Qed.

(** X16. Values are put in as they are, so one that holds a double quote
    can stand for two: there are two different pairs of source folder and
    source repository that give the same control file, whatever the other
    arguments. *)
Theorem control_file_values_can_collide :
  ∃ src_folder src_repo src_folder' src_repo',
    (src_folder, src_repo) ≠ (src_folder', src_repo')
    ∧ ∀ xml_output tgt_folder tgt_repo dtd fs,
        create_import_control_xml xml_output src_folder src_repo
          tgt_folder tgt_repo dtd fs
        = create_import_control_xml xml_output src_folder' src_repo'
            tgt_folder tgt_repo dtd fs.
Proof.
  exists ("x" +:+ Str.dq +:+ " SOURCEREPOSITORYNAME=" +:+ Str.dq +:+ "y"), "z",
         "x", ("y" +:+ Str.dq +:+ " SOURCEREPOSITORYNAME=" +:+ Str.dq +:+ "z").
  split; [intros [= H _]; vm_compute in H; discriminate|].
  intros xml_output tgt_folder tgt_repo dtd fs.
  unfold create_import_control_xml. rewrite !format_template.
  replace (control_file_text
             ("x" +:+ Str.dq +:+ " SOURCEREPOSITORYNAME=" +:+ Str.dq +:+ "y") "z"
             tgt_folder tgt_repo dtd)
    with (control_file_text "x"
            ("y" +:+ Str.dq +:+ " SOURCEREPOSITORYNAME=" +:+ Str.dq +:+ "z")
            tgt_folder tgt_repo dtd); [done|].
  rewrite !control_file_text_pieces. vm_compute. reflexivity.
Qed.

(** X17. When no value holds a double quote the values can be read back
    from the file: two calls that leave the same text at their paths were
    given the same five values. *)
Theorem control_file_determines_values
    (xml_output src_folder src_repo tgt_folder tgt_repo dtd : string)
    (xml_output' src_folder' src_repo' tgt_folder' tgt_repo' dtd' : string)
    (fs fs' fs1 fs1' : filesystem) :
  Forall (λ value, Str.mem_char "034" value = false)
    [ src_folder; src_repo; tgt_folder; tgt_repo; dtd;
      src_folder'; src_repo'; tgt_folder'; tgt_repo'; dtd' ] →
  create_import_control_xml xml_output src_folder src_repo tgt_folder tgt_repo dtd fs
  = Ok fs1 →
  create_import_control_xml xml_output'
    src_folder' src_repo' tgt_folder' tgt_repo' dtd' fs'
  = Ok fs1' →
  read xml_output fs1 = read xml_output' fs1' →
  src_folder = src_folder' ∧ src_repo = src_repo' ∧ tgt_folder = tgt_folder'
  ∧ tgt_repo = tgt_repo' ∧ dtd = dtd'.
Proof.
  intros Hquote Hfs1 Hfs1' Hread.
  repeat (apply Forall_cons in Hquote as [? Hquote]).
  assert (∀ p a b c d e f f1,
    create_import_control_xml p a b c d e f = Ok f1 →
    read p f1 = Some (control_file_text a b c d e)) as Hcontent.
  { intros p a b c d e f f1 Hok.
    destruct (can_open f p) eqn:Hopen.
    - rewrite create_import_control_xml_ok in Hok by done. injection Hok as <-.
      unfold read. cbn [files resolve]. by rewrite lookup_insert_eq.
    - unfold create_import_control_xml in Hok. rewrite format_template in Hok.
      cbn [mbind result_bind] in Hok. unfold open_w in Hok. by rewrite Hopen in Hok. }
  rewrite (Hcontent _ _ _ _ _ _ _ _ Hfs1), (Hcontent _ _ _ _ _ _ _ _ Hfs1') in Hread.
  apply (inj Some) in Hread as Htext. rewrite !control_file_text_pieces in Htext.
  apply append_inj_l, quote_split in Htext as [-> Htext]; [|done..].
  apply append_inj_l, quote_split in Htext as [-> Htext]; [|done..].
  apply append_inj_l, quote_split in Htext as [-> Htext]; [|done..].
  apply append_inj_l, quote_split in Htext as [-> Htext]; [|done..].
  apply append_inj_l, quote_split in Htext as [-> _]; [|done..].
  done.
Qed.

Lemma control_file_determines_values_witness :
  let fs := {| files := ∅; resolve := λ path, path; can_open := λ _, true |} in
  let fs1 := {| files := {["a.xml" := control_file_text "A" "dev" "B" "prod" "i.dtd"]};
                resolve := λ path, path; can_open := λ _, true |} in
  Forall (λ value, Str.mem_char "034" value = false)
    [ "A"; "dev"; "B"; "prod"; "i.dtd"; "A"; "dev"; "B"; "prod"; "i.dtd" ]
  ∧ create_import_control_xml "a.xml" "A" "dev" "B" "prod" "i.dtd" fs = Ok fs1
  ∧ read "a.xml" fs1 = read "a.xml" fs1
  ∧ "A" = "A" ∧ "dev" = "dev" ∧ "B" = "B" ∧ "prod" = "prod" ∧ "i.dtd" = "i.dtd".
Proof.
  assert (Forall (λ value, Str.mem_char "034" value = false)
            [ "A"; "dev"; "B"; "prod"; "i.dtd"; "A"; "dev"; "B"; "prod"; "i.dtd" ])
    as Hquote by (repeat constructor).
  assert (create_import_control_xml "a.xml" "A" "dev" "B" "prod" "i.dtd"
            {| files := ∅; resolve := λ path, path; can_open := λ _, true |}
          = Ok {| files := {["a.xml" := control_file_text "A" "dev" "B" "prod" "i.dtd"]};
                  resolve := λ path, path; can_open := λ _, true |}) as Hok.
  { rewrite create_import_control_xml_ok by done. cbn [files resolve can_open].
    by rewrite insert_empty. }
  split; [exact Hquote|]. split; [exact Hok|]. split; [reflexivity|].
  exact (control_file_determines_values _ _ _ _ _ _ _ _ _ _ _ _ _ _ _ _
           Hquote Hok Hok eq_refl).
Defined.

(** ** The conflict rules of the control file *)

Lemma startswith_agree (sep u rest : string) :
  Str.startswith sep (u +:+ rest) = true → agree sep u = true.
Proof.
  revert u. induction sep as [|a sep IH]; intros [|b u]; simpl; try done.
  destruct (Ascii.eqb a b); [apply IH|done].
Qed.

(** A piece in which no occurrence of the separator can begin is read
    to its end. *)
Lemma split_scan_piece (a : ascii) (sep' piece rest cur : string) :
  may_start (String a sep') piece = false →
  Str.split_scan (String a sep') (piece +:+ rest) 0 cur
  = Str.split_scan (String a sep') rest 0 (cur +:+ piece).
Proof.
  revert cur. induction piece as [|c piece IH]; intros cur Hpiece.
  - simpl. by rewrite append_empty_r.
  - cbn [may_start] in Hpiece. apply orb_false_iff in Hpiece as [Hhere Hlater].
    change (String c piece +:+ rest) with (String c (piece +:+ rest)).
    cbn [Str.split_scan].
    destruct (Str.startswith (String a sep') (String c (piece +:+ rest))) eqn:Hstart.
    + apply (startswith_agree _ (String c piece)) in Hstart. congruence.
    + rewrite IH by done. by rewrite append_assoc.
Qed.

(** With no [<] in the values the document holds the one conflict rule
    of the template. *)
Lemma control_file_one_rule (src_folder src_repo tgt_folder tgt_repo dtd : string) :
  Forall (λ value, Str.mem_char "<" value = false)
    [src_folder; src_repo; tgt_folder; tgt_repo; dtd] →
  Str.count "<TYPEOBJECT"
    (control_file_text src_folder src_repo tgt_folder tgt_repo dtd) = 1.
Proof.
  intros Hvalues. repeat (apply Forall_cons in Hvalues as [? Hvalues]).
  unfold Str.count. rewrite control_file_text_pieces.
  repeat change (String "034" (?piece +:+ ?rest)) with (String "034" piece +:+ rest).
  rewrite (split_scan_piece "<" "TYPEOBJECT" before_dtd) by (by vm_compute).
  rewrite split_scan_field by done.
  rewrite (split_scan_piece "<" "TYPEOBJECT" (String "034" before_src_folder))
    by (by vm_compute).
  rewrite split_scan_field by done.
  rewrite (split_scan_piece "<" "TYPEOBJECT" (String "034" before_src_repo))
    by (by vm_compute).
  rewrite split_scan_field by done.
  rewrite (split_scan_piece "<" "TYPEOBJECT" (String "034" before_tgt_folder))
    by (by vm_compute).
  rewrite split_scan_field by done.
  rewrite (split_scan_piece "<" "TYPEOBJECT" (String "034" before_tgt_repo))
    by (by vm_compute).
  rewrite split_scan_field by done.
  match goal with
  | |- context [Str.split_scan _ _ 0 ?text] => generalize text
  end.
  intros cur. vm_compute. reflexivity.
Qed.

(** C8, as stated, fails: a value is put in as it is, so a value that
    holds markup can bring a conflict rule of its own, and the document
    read back then holds two. *)
Lemma control_file_second_conflict_rule :
  ∃ fs' text,
    create_import_control_xml "ctl.xml" "A" "dev" "B"
      ("prod" +:+ Str.dq +:+ "/><TYPEOBJECT OBJECTTYPENAME=" +:+ quoted "Mapping"
       +:+ " RESOLUTION=" +:+ Str.dq +:+ "RENAME")
      "impcntl.dtd"
      {| files := ∅; resolve := λ path, path; can_open := λ _, true |}
    = Ok fs'
    ∧ read "ctl.xml" fs' = Some text
    ∧ Str.count "<TYPEOBJECT" text = 2.
Proof.
  eexists _, _. split; [by apply create_import_control_xml_ok|].
  unfold read. cbn [files resolve]. rewrite lookup_insert_eq.
  split; [reflexivity|]. by vm_compute.
Qed.

(** C8, amended. Writing the control file and reading it back gives the
    template with the five values put in as they are, whatever the values:
    nothing is escaped.  The document always holds the attribute
    CHECKIN_AFTER_IMPORT with the value NO and the conflict rule for the
    object type ALL with the resolution REPLACE; that rule is the only
    conflict rule of the document when no value holds the character [<]. *)
Theorem create_import_control_xml_writes_document
    (xml_output src_folder src_repo tgt_folder tgt_repo dtd : string)
    (fs : filesystem) :
  can_open fs xml_output = true →
  ∃ fs',
    create_import_control_xml xml_output src_folder src_repo tgt_folder tgt_repo dtd fs
    = Ok fs'
    ∧ read xml_output fs'
      = Some (control_file_text src_folder src_repo tgt_folder tgt_repo dtd)
    ∧ Str.format template
        [ ("src_folder", src_folder); ("src_repo", src_repo);
          ("tgt_folder", tgt_folder); ("tgt_repo", tgt_repo); ("dtd", dtd) ]
      = Ok (control_file_text src_folder src_repo tgt_folder tgt_repo dtd)
    ∧ Str.occurs_in ("CHECKIN_AFTER_IMPORT=" +:+ quoted "NO")
        (control_file_text src_folder src_repo tgt_folder tgt_repo dtd)
    ∧ Str.occurs_in
        ("<TYPEOBJECT OBJECTTYPENAME = " +:+ quoted "ALL" +:+ " RESOLUTION="
           +:+ quoted "REPLACE" +:+ "/>")
        (control_file_text src_folder src_repo tgt_folder tgt_repo dtd)
    ∧ (Forall (λ value, Str.mem_char "<" value = false)
         [src_folder; src_repo; tgt_folder; tgt_repo; dtd] →
       Str.count "<TYPEOBJECT"
         (control_file_text src_folder src_repo tgt_folder tgt_repo dtd) = 1).
Proof.
  intros Hopen. eexists. split; [by apply create_import_control_xml_ok|].
  unfold read. cbn [files resolve].
  split; [by rewrite lookup_insert_eq|]. split; [apply format_template|].
  split; [|split; [|apply control_file_one_rule]].
  - apply occurs_in_trans
      with (b := "<IMPORTPARAMS CHECKIN_AFTER_IMPORT=" +:+ quoted "NO" +:+ ">").
    + apply contains_spec. by vm_compute.
    + apply join_occurs. unfold control_file_lines. in_literal.
  - apply join_occurs. unfold control_file_lines. in_literal.
Qed.

Lemma create_import_control_xml_writes_document_witness :
  let fs := {| files := {["ctl.xml" := "<old/>"]};
               resolve := λ path, path;
               can_open := λ _, true |} in
  can_open fs "ctl.xml" = true
  ∧ ∃ fs',
      create_import_control_xml "ctl.xml" "A&B" "dev" "it's" "{dtd}" "impcntl.dtd" fs
      = Ok fs'
      ∧ read "ctl.xml" fs'
        = Some (control_file_text "A&B" "dev" "it's" "{dtd}" "impcntl.dtd")
      ∧ Str.format template
          [ ("src_folder", "A&B"); ("src_repo", "dev");
            ("tgt_folder", "it's"); ("tgt_repo", "{dtd}"); ("dtd", "impcntl.dtd") ]
        = Ok (control_file_text "A&B" "dev" "it's" "{dtd}" "impcntl.dtd")
      ∧ Str.occurs_in ("CHECKIN_AFTER_IMPORT=" +:+ quoted "NO")
          (control_file_text "A&B" "dev" "it's" "{dtd}" "impcntl.dtd")
      ∧ Str.occurs_in
          ("<TYPEOBJECT OBJECTTYPENAME = " +:+ quoted "ALL" +:+ " RESOLUTION="
             +:+ quoted "REPLACE" +:+ "/>")
          (control_file_text "A&B" "dev" "it's" "{dtd}" "impcntl.dtd")
      ∧ (Forall (λ value, Str.mem_char "<" value = false)
           ["A&B"; "dev"; "it's"; "{dtd}"; "impcntl.dtd"] →
         Str.count "<TYPEOBJECT"
           (control_file_text "A&B" "dev" "it's" "{dtd}" "impcntl.dtd") = 1).
Proof.
  split; [reflexivity|].
  exact (create_import_control_xml_writes_document
           "ctl.xml" "A&B" "dev" "it's" "{dtd}" "impcntl.dtd"
           {| files := {["ctl.xml" := "<old/>"]};
              resolve := λ path, path;
              can_open := λ _, true |} eq_refl).
Defined.

(** ** The rows of [format_output]: trimmed, then split *)

Lemma isspace_spec (c : ascii) : Str.isspace c = true ↔ whitespace c.
Proof.
  unfold whitespace.
  assert (Str.isspace c
          = bool_decide
              (nat_of_ascii c ∈ [9; 10; 11; 12; 13; 28; 29; 30; 31; 32; 133; 160]))
    as ->.
  { destruct c as [[] [] [] [] [] [] [] []]; by vm_compute. }
  apply bool_decide_eq_true.
Qed.

Lemma all_space_spec (s : string) :
  forallb Str.isspace (list_ascii_of_string s) = true
  → Forall whitespace (list_ascii_of_string s).
Proof.
  induction s as [|c s IH]; [constructor|].
  cbn [list_ascii_of_string forallb]. intros [Hc Hs]%andb_true_iff.
  constructor; [by apply isspace_spec | by apply IH].
Qed.

Lemma rstrip_by_first (drop : ascii → bool) (s : string) (c : ascii) (t : string) :
  Str.rstrip_by drop s = String c t → ∃ t', s = String c t'.
Proof.
  destruct s as [|x s]; [done|]. simpl.
  destruct (Str.rstrip_by drop s); [destruct (drop x)|]; intros [= -> _];
    by eexists.
Qed.

Lemma rstrip_by_last (drop : ascii → bool) (s : string) :
  ∀ t c, Str.rstrip_by drop s = t +:+ String c "" → drop c = false.
Proof.
  induction s as [|x s IH]; intros t c.
  - by destruct t.
  - simpl. destruct (Str.rstrip_by drop s) as [|y r] eqn:Hr.
    + destruct (drop x) eqn:Hx; [by destruct t|].
      destruct t as [|z t]; simpl.
      * by intros [= <-].
      * intros [= _ Heq]. by destruct t.
    + destruct t as [|z t]; simpl; [by intros [= _ ?]|].
      intros [= _ Heq]. by apply (IH t).
Qed.

(** [s.strip()] is [s] trimmed. *)
Lemma strip_is_trimmed (s : string) : is_trimmed s (Str.strip s).
Proof.
  destruct (lstrip_by_spec Str.isspace s) as (left & Hl & Hleft & Hfirst).
  destruct (rstrip_by_spec Str.isspace (Str.lstrip_by Str.isspace s))
    as (right & Hr & Hright).
  exists left, right. unfold Str.strip.
  split; [by rewrite <- Hr|].
  split; [by apply all_space_spec|]. split; [by apply all_space_spec|]. split.
  - intros c t Hstrip Hc. apply rstrip_by_first in Hstrip as [t' Ht'].
    rewrite Ht' in Hfirst. apply isspace_spec in Hc. congruence.
  - intros t c Hstrip Hc. apply rstrip_by_last in Hstrip.
    apply isspace_spec in Hc. congruence.
Qed.

(** The scan cuts at the first occurrence of the separator, then goes on
    after it. *)
Lemma split_scan_is_split (sep : string) (n : nat) :
  sep ≠ "" →
  ∀ s cur, String.length s ≤ n →
    (∀ a b, cur +:+ s = a +:+ sep +:+ b → String.length cur ≤ String.length a) →
    is_split sep (cur +:+ s) (Str.split_scan sep s 0 cur).
Proof.
  intros Hsep.
  assert (0 < String.length sep) as Hpos by (destruct sep; [done|simpl; lia]).
  assert (∀ cur,
    (∀ a b, cur +:+ "" = a +:+ sep +:+ b → String.length cur ≤ String.length a) →
    is_split sep (cur +:+ "") [cur]) as Hend.
  { intros cur Hinv. rewrite append_empty_r. constructor. intros (a & b & ->).
    specialize (Hinv a b). rewrite append_empty_r in Hinv.
    specialize (Hinv eq_refl). rewrite !length_append in Hinv. lia. }
  induction n as [|n IH]; intros s cur Hlen Hinv.
  - destruct s; [|simpl in Hlen; lia]. by apply Hend.
  - destruct s as [|c s]; [by apply Hend|].
    cbn [Str.split_scan].
    destruct (Str.startswith sep (String c s)) eqn:Hstart.
    + apply startswith_spec in Hstart as [rest Hrest].
      destruct sep as [|x sep']; [done|]. simpl in Hrest.
      injection Hrest as -> ->.
      replace (String.length (String x sep') - 1) with (String.length sep')
        by (simpl; lia).
      rewrite split_scan_skip.
      change (String x (sep' +:+ rest)) with (String x sep' +:+ rest) in *.
      constructor; [exact Hinv|].
      change rest with ("" +:+ rest) at 1. apply IH.
      * simpl in Hlen. rewrite length_append in Hlen. lia.
      * intros a b _. simpl. lia.
    + replace (cur +:+ String c s) with ((cur +:+ String c "") +:+ s)
        by (by rewrite append_assoc).
      apply IH; [simpl in Hlen; lia|].
      intros a b Heq. rewrite append_assoc in Heq.
      change (String c "" +:+ s) with (String c s) in Heq.
      pose proof (Hinv a b Heq) as Hle. rewrite length_append. simpl.
      destruct (decide (String.length cur = String.length a)) as [Hsame|]; [|lia].
      destruct (append_inj_length _ _ _ _ Heq Hsame) as [_ Hs].
      assert (Str.startswith sep (String c s) = true); [|congruence].
      apply startswith_spec. by exists b.
Qed.

(** [s.split(sep)] is [s] split on [sep]. *)
Lemma split_is_split (s sep : string) (fields : list string) :
  Str.split s sep = Ok fields → is_split sep s fields.
Proof.
  unfold Str.split. destruct sep as [|a sep'] eqn:Hsep; [done|].
  intros [= <-]. change s with ("" +:+ s) at 1.
  apply (split_scan_is_split _ (String.length s)); [done|done|].
  intros x y _. simpl. lia.
Qed.

(** Splitting on a separator has one result. *)
Lemma is_split_unique (sep s : string) (fields1 fields2 : list string) :
  is_split sep s fields1 → is_split sep s fields2 → fields1 = fields2.
Proof.
  intros H1. revert fields2.
  induction H1 as [s Hnone|field rest fields Hfirst Hrest IH]; intros fields2 H2.
  - inversion H2 as [s' Hnone'|field' rest' fields' Hfirst' Hrest' Heq]; [done|].
    subst. destruct Hnone. by exists field', rest'.
  - inversion H2 as [s' Hnone' Heq|field' rest' fields' Hfirst' Hrest' Heq].
    + subst. destruct Hnone'. by exists field, rest.
    + pose proof (Hfirst field' rest' (eq_sym Heq)) as Hle.
      pose proof (Hfirst' field rest Heq) as Hle'.
      destruct (append_inj_length _ _ _ _ Heq) as [-> Htail]; [lia|].
      apply append_inj_l in Htail as ->. f_equal. by apply IH.
Qed.

Lemma chars_append (a b : string) :
  list_ascii_of_string (a +:+ b) = list_ascii_of_string a ++ list_ascii_of_string b.
Proof. induction a as [|c a IH]; [done|]. simpl. by rewrite IH. Qed.

Lemma append_eq_split (a b c d : string) :
  a +:+ b = c +:+ d → String.length a ≤ String.length c →
  ∃ x, c = a +:+ x ∧ b = x +:+ d.
Proof.
  revert c. induction a as [|y a IH]; intros c Heq Hlen.
  - by exists c.
  - destruct c as [|z c]; [simpl in Hlen; lia|]. simpl in Heq, Hlen.
    injection Heq as -> Heq. destruct (IH c Heq) as (x & -> & ->); [lia|].
    by exists x.
Qed.

Lemma string_last (s : string) : s ≠ "" → ∃ t c, s = t +:+ String c "".
Proof.
  induction s as [|x s IH]; [done|]. intros _. destruct s as [|y s].
  - by exists "", x.
  - destruct IH as (t & c & ->); [done|]. by exists (String x t), c.
Qed.

(** The whitespace before the first character of a trimmed text. *)
Lemma leading_whitespace_unique (l1 l2 u1 u2 : string) :
  l1 +:+ u1 = l2 +:+ u2 →
  Forall whitespace (list_ascii_of_string l1) →
  Forall whitespace (list_ascii_of_string l2) →
  (∃ c t, u1 = String c t ∧ ¬ whitespace c) →
  (∃ c t, u2 = String c t ∧ ¬ whitespace c) →
  u1 = u2.
Proof.
  revert l2. induction l1 as [|x l1 IH]; intros [|y l2]; simpl.
  - done.
  - intros -> _ [Hy _]%Forall_cons (c & t & [= -> _] & Hc) _. done.
  - intros <- [Hx _]%Forall_cons _ _ (c & t & [= -> _] & Hc). done.
  - intros [= -> Heq] [_ H1]%Forall_cons [_ H2]%Forall_cons.
    exact (IH l2 Heq H1 H2).
Qed.

(** Trimming has one result. *)
Lemma is_trimmed_unique (line trimmed1 trimmed2 : string) :
  is_trimmed line trimmed1 → is_trimmed line trimmed2 → trimmed1 = trimmed2.
Proof.
  assert (∀ t t',
    is_trimmed line t → is_trimmed line t' → t = "" → t' = "") as Hempty.
  { intros t t' (l & r & Hline & Hl & Hr & _) (l' & r' & Hline' & _ & _ & Hfirst & _) ->.
    destruct t' as [|c t']; [done|]. destruct (Hfirst c t' eq_refl).
    assert (Forall whitespace (list_ascii_of_string line)) as Hall.
    { rewrite Hline, !chars_append. simpl. by apply Forall_app. }
    rewrite Hline', !chars_append, !Forall_app in Hall.
    destruct Hall as (_ & Hc & _). exact (List.Forall_inv Hc). }
  intros H1 H2.
  destruct (decide (trimmed1 = "")) as [E1|E1];
    [by rewrite E1, (Hempty _ _ H1 H2 E1)|].
  destruct (decide (trimmed2 = "")) as [E2|E2];
    [by rewrite E2, (Hempty _ _ H2 H1 E2)|].
  clear Hempty.
  destruct H1 as (l1 & r1 & Hline1 & Hl1 & Hr1 & Hfirst1 & Hlast1).
  destruct H2 as (l2 & r2 & Hline2 & Hl2 & Hr2 & Hfirst2 & Hlast2).
  assert (trimmed1 +:+ r1 = trimmed2 +:+ r2) as Heq.
  { apply (leading_whitespace_unique l1 l2); [congruence|done|done| |].
    - destruct trimmed1 as [|c1 t1]; [done|].
      exists c1, (t1 +:+ r1). split; [done|]. by apply (Hfirst1 c1 t1).
    - destruct trimmed2 as [|c2 t2]; [done|].
      exists c2, (t2 +:+ r2). split; [done|]. by apply (Hfirst2 c2 t2). }
  assert (∀ t r t' r',
    t +:+ r = t' +:+ r' → String.length t ≤ String.length t' →
    Forall whitespace (list_ascii_of_string r) →
    (∀ u c, t' = u +:+ String c "" → ¬ whitespace c) → t = t') as Hshort.
  { intros t r t' r' Htr Hlen Hr Hlast.
    destruct (append_eq_split _ _ _ _ Htr Hlen) as (x & -> & ->).
    destruct x as [|y x]; [by rewrite append_empty_r|].
    destruct (string_last (String y x)) as (u & c & Hx); [done|].
    rewrite Hx, !chars_append, !Forall_app in Hr. destruct Hr as ((_ & Hc) & _).
    destruct (Hlast (t +:+ u) c); [|exact (List.Forall_inv Hc)].
    by rewrite Hx, append_assoc. }
  destruct (decide (String.length trimmed1 ≤ String.length trimmed2)).
  - by apply (Hshort _ r1 _ r2).
  - symmetry. apply (Hshort _ r2 _ r1); [done|lia|done|done].
Qed.

(** C6. A line survives the filter when it is not empty and holds none of
    the boilerplate texts.  The rows of the result are those of the
    surviving lines, one for one and in the order of the lines.  When the
    separator occurs in the line, the row is the list of fields got by
    trimming the whole line first and splitting the trimmed line on the
    separator afterwards; otherwise the row is the trimmed line, as one
    string. *)
Theorem format_output_trims_then_splits (command_output : list string)
    (field_separator : string) :
  field_separator ≠ "" →
  (∀ item,
     kept item = true
     ↔ item ≠ ""
       ∧ ∀ s, s ∈ [ "Informatica"; "Copyright"; "All Rights Reserved";
                    "This Software is protected"; "Invoked at"; "Completed at";
                    "completed successfully" ]
              → ¬ Str.occurs_in s item)
  ∧ ∃ rows,
      format_output command_output field_separator = Ok rows
      ∧ Forall2 (λ item r,
          ∃ trimmed,
            is_trimmed item trimmed
            ∧ ((Str.occurs_in field_separator item
                ∧ ∃ fields, is_split field_separator trimmed fields
                            ∧ r = Fields fields)
               ∨ (¬ Str.occurs_in field_separator item ∧ r = Scalar trimmed)))
        (List.filter kept command_output) rows.
Proof.
  intros Hsep. split; [exact kept_spec|].
  destruct (format_output_ok_length command_output field_separator Hsep)
    as (rows & Hrows & _).
  exists rows. split; [done|].
  eapply Forall2_impl; [by apply format_output_Forall2|].
  intros item r Hr. unfold trimmed_row in Hr.
  exists (Str.strip item). split; [apply strip_is_trimmed|].
  destruct (Str.contains field_separator item) eqn:Hocc.
  - left. split; [by apply contains_spec|].
    destruct (Str.split (Str.strip item) field_separator) as [fields|e] eqn:Hsplit;
      [|done].
    injection Hr as <-. exists fields. split; [by apply split_is_split|done].
  - right. split; [by apply contains_false|]. by injection Hr as <-.
Qed.

Lemma format_output_trims_then_splits_witness :
  "|" ≠ ""
  ∧ (∀ item,
       kept item = true
       ↔ item ≠ ""
         ∧ ∀ s, s ∈ [ "Informatica"; "Copyright"; "All Rights Reserved";
                      "This Software is protected"; "Invoked at"; "Completed at";
                      "completed successfully" ]
                → ¬ Str.occurs_in s item)
  ∧ ∃ rows,
      format_output ["Invoked at 10:00"; "  a | b  "; ""; "  x  "] "|" = Ok rows
      ∧ Forall2 (λ item r,
          ∃ trimmed,
            is_trimmed item trimmed
            ∧ ((Str.occurs_in "|" item
                ∧ ∃ fields, is_split "|" trimmed fields ∧ r = Fields fields)
               ∨ (¬ Str.occurs_in "|" item ∧ r = Scalar trimmed)))
        (List.filter kept ["Invoked at 10:00"; "  a | b  "; ""; "  x  "]) rows.
Proof.
  assert ("|" ≠ "") as Hsep by discriminate.
  split; [exact Hsep|].
  exact (format_output_trims_then_splits
           ["Invoked at 10:00"; "  a | b  "; ""; "  x  "] "|" Hsep).
Defined.

(** The rows of a sample, by the specification's reading alone: the
    trimmed line and its split are the only ones there are. *)
Example format_output_trims_then_splits_sample :
  format_output ["Invoked at 10:00"; "  a | b  "; ""; "  x  "] "|"
  = Ok [Fields ["a "; " b"]; Scalar "x"]
  ∧ is_trimmed "  a | b  " "a | b"
  ∧ is_split "|" "a | b" ["a "; " b"]
  ∧ is_trimmed "  x  " "x".
Proof.
  split; [by vm_compute|].
  split; [exact (strip_is_trimmed "  a | b  ")|].
  split; [exact (split_is_split "a | b" "|" _ eq_refl)|].
  exact (strip_is_trimmed "  x  ").
Qed.
